(** * Federated cross-database query pipeline of db-query

    Shallow embedding of the Rust backend modules
    [services/datafusion/cross_db_planner.rs],
    [services/datafusion/federated_executor.rs] and
    [services/datafusion/dialect.rs].

    Conventions of the embedding:
    - a Rust [HashMap] is an association list listed in the map's iteration
      order; [get] returns the first binding of a key, [insert] of an existing
      key replaces its binding in place;
    - [Result<T, E>] is [Result T E] below, and [?] is the bind [let*];
    - the external libraries (the [sqlparser] parser, the DataFusion engine,
      the database adapters) are parameters of Sections, so every theorem
      holds for any behaviour of them satisfying its stated hypotheses. *)

From Stdlib Require Import String Ascii List Bool ZArith Lia.
From Stdlib Require Import Numbers.DecimalString.
From Stdlib Require Numbers.DecimalNat.
Import ListNotations.
Open Scope list_scope.
Open Scope string_scope.
Set Warnings "-register-all".

(** ** Common definitions *)

Inductive Result (T E : Type) : Type :=
| Ok : T -> Result T E
| Err : E -> Result T E.
Arguments Ok {T E} _.
Arguments Err {T E} _.

Definition bind {T U E} (r : Result T E) (k : T -> Result U E) : Result U E :=
  match r with
  | Ok x => k x
  | Err e => Err e
  end.

Definition map_err {T E F} (f : E -> F) (r : Result T E) : Result T F :=
  match r with
  | Ok x => Ok x
  | Err e => Err (f e)
  end.

Notation "'let*' x ':=' c 'in' k" := (bind c (fun x => k))
  (at level 200, x name, c at level 100, k at level 200).

Definition is_ok {T E} (r : Result T E) : bool :=
  match r with Ok _ => true | Err _ => false end.

(** [crate::api::middleware::AppError], the variants used by the core;
    [Panic] stands for a Rust panic ([unwrap] on [None], indexing out of
    bounds). *)
Inductive AppError :=
| Validation (msg : string)
| InvalidSql (msg : string)
| Database (msg : string)
| Panic (msg : string).

(** [HashMap::get]: first binding of the key in iteration order. *)
Fixpoint map_get {V} (k : string) (m : list (string * V)) : option V :=
  match m with
  | [] => None
  | (k', v) :: m' => if String.eqb k k' then Some v else map_get k m'
  end.

Definition contains_key {V} (k : string) (m : list (string * V)) : bool :=
  match map_get k m with Some _ => true | None => false end.

(** [HashMap::insert]: replaces the binding of an existing key in place,
    otherwise adds the key at the end. *)
Fixpoint map_insert {V} (k : string) (v : V) (m : list (string * V))
  : list (string * V) :=
  match m with
  | [] => [(k, v)]
  | (k', v') :: m' =>
      if String.eqb k k' then (k, v) :: m' else (k', v') :: map_insert k v m'
  end.

(** [usize]/[u32] decimal rendering, as [format!("{}", n)]. *)
Definition nat_to_string (n : nat) : string :=
  NilEmpty.string_of_uint (Nat.to_uint n).

(** [slice.join(sep)]. *)
Fixpoint join_strings (sep : string) (l : list string) : string :=
  match l with
  | [] => ""
  | [x] => x
  | x :: l' => x ++ sep ++ join_strings sep l'
  end.

(** The one-character string made of a double quote. *)
Definition dquote : string := String "034"%char EmptyString.

(** [str::replace(pat, rep)]: non-overlapping occurrences of [pat], left to
    right.  [fuel] bounds the scan; [str_replace] gives it the length of the
    text plus one, enough to finish.  An empty pattern matches before every
    character and at the end, as in Rust. *)
Fixpoint replace_fuel (fuel : nat) (pat rep s : string) : string :=
  match fuel with
  | O => s
  | S fuel' =>
      match pat with
      | EmptyString =>
          match s with
          | EmptyString => rep
          | String c s' => rep ++ String c (replace_fuel fuel' pat rep s')
          end
      | String _ _ =>
          if String.prefix pat s
          then rep ++ replace_fuel fuel' pat rep
                        (substring (String.length pat)
                           (String.length s - String.length pat) s)
          else match s with
               | EmptyString => EmptyString
               | String c s' => String c (replace_fuel fuel' pat rep s')
               end
      end
  end.

Definition str_replace (pat rep s : string) : string :=
  replace_fuel (S (String.length s)) pat rep s.

(** [str::contains]. *)
Fixpoint contains (s pat : string) : bool :=
  if String.prefix pat s then true
  else match s with
       | EmptyString => false
       | String _ s' => contains s' pat
       end.

(** ** JSON values ([serde_json::Value]) *)
Module Json.

(** An [f64] is kept symbolic: a float literal by its IEEE-754 bit pattern,
    or the [as f64] cast of an integer.  No claim depends on float rounding. *)
Inductive F64 :=
| F64Bits (bits : Z)
| F64OfInt (z : Z).

(** [serde_json::Number]: non-negative integers are [PosInt] (a [u64]),
    negative ones [NegInt] (an [i64]), the rest [Float]. *)
Inductive Number :=
| PosInt (u : Z)
| NegInt (i : Z)
| Float (f : F64).

(** An object is its [serde_json::Map] listed in iteration order. *)
Inductive Value :=
| Null
| Bool (b : bool)
| Num (n : Number)
| Str (s : string)
| Arr (l : list Value)
| Obj (m : list (string * Value)).

Definition i64_max : Z := 9223372036854775807.

Definition number_is_i64 (n : Number) : bool :=
  match n with
  | PosInt u => Z.leb u i64_max
  | NegInt _ => true
  | Float _ => false
  end.

Definition number_is_f64 (n : Number) : bool :=
  match n with Float _ => true | _ => false end.

Definition number_as_i64 (n : Number) : option Z :=
  match n with
  | PosInt u => if Z.leb u i64_max then Some u else None
  | NegInt i => Some i
  | Float _ => None
  end.

Definition number_as_f64 (n : Number) : option F64 :=
  match n with
  | PosInt u => Some (F64OfInt u)
  | NegInt i => Some (F64OfInt i)
  | Float f => Some f
  end.

(** [Value::as_i64], [Value::as_f64], [Value::as_str], [Value::as_object]. *)
Definition as_i64 (v : Value) : option Z :=
  match v with Num n => number_as_i64 n | _ => None end.
Definition as_f64 (v : Value) : option F64 :=
  match v with Num n => number_as_f64 n | _ => None end.
Definition as_str (v : Value) : option string :=
  match v with Str s => Some s | _ => None end.
Definition as_object (v : Value) : option (list (string * Value)) :=
  match v with Obj m => Some m | _ => None end.

(** [Value::get(key)]: [None] on anything but an object. *)
Definition get (key : string) (v : Value) : option Value :=
  match v with Obj m => map_get key m | _ => None end.

(** [serde_json::to_value] of an [i64] ([Number::from]): a negative value
    is a [NegInt], any other a [PosInt]. *)
Definition value_from_i64 (i : Z) : Value :=
  if Z.ltb i 0 then Num (NegInt i) else Num (PosInt i).

(** An [f64] is finite unless its exponent bits are all set; an integer cast
    to [f64] is always finite. *)
Definition f64_is_finite (f : F64) : bool :=
  match f with
  | F64Bits bits => negb (Z.eqb (Z.land (Z.shiftr bits 52) 2047) 2047)
  | F64OfInt _ => true
  end.

(** [serde_json::to_value] of an [f64] ([Value::from]): [Null] for a NaN or
    an infinity, a float number otherwise. *)
Definition value_from_f64 (f : F64) : Value :=
  if f64_is_finite f then Num (Float f) else Null.

End Json.

(** ** Columnar batches ([arrow::RecordBatch]) *)
Module Arrow.
Import Json.

Inductive DataType := Int64 | Float64 | Utf8 | Boolean.

Definition data_type_eqb (a b : DataType) : bool :=
  match a, b with
  | Int64, Int64 | Float64, Float64 | Utf8, Utf8 | Boolean, Boolean => true
  | _, _ => false
  end.

Record Field := { field_name : string; data_type : DataType; nullable : bool }.

(** An array; [None] is a set null bit.  [StrShown] is a [StringArray] whose
    cells are the [to_string()] rendering of the given JSON values. *)
Inductive Array :=
| Int64Array (cells : list (option Z))
| Float64Array (cells : list (option F64))
| StringArray (cells : list (option string))
| StrShown (cells : list (option Value)).

Definition array_data_type (a : Array) : DataType :=
  match a with
  | Int64Array _ => Int64
  | Float64Array _ => Float64
  | StringArray _ | StrShown _ => Utf8
  end.

Definition array_len (a : Array) : nat :=
  match a with
  | Int64Array c => length c
  | Float64Array c => length c
  | StringArray c => length c
  | StrShown c => length c
  end.

Record RecordBatch := { schema : list Field; columns : list Array }.

(** [RecordBatch::try_new]: one column per field, each of the field's data
    type, all of one length, and at least one column (arrow refuses a batch
    with neither columns nor an explicit row count). *)
Definition try_new (fields : list Field) (arrays : list Array)
  : Result RecordBatch string :=
  match arrays with
  | [] => Err "must either specify a row count or at least one column"
  | a0 :: _ =>
      if negb (Nat.eqb (length fields) (length arrays))
      then Err "number of columns must match number of fields"
      else if negb (forallb (fun '(f, a) => data_type_eqb (data_type f)
                                               (array_data_type a))
                       (combine fields arrays))
      then Err "column types must match schema types"
      else if negb (forallb (fun a => Nat.eqb (array_len a) (array_len a0))
                       arrays)
      then Err "all columns in a record batch must have the same length"
      else Ok {| schema := fields; columns := arrays |}
  end.

Definition new_empty : RecordBatch := {| schema := []; columns := [] |}.

End Arrow.

(** ** Row to columnar conversion ([DataFusionFederatedExecutor::json_to_record_batch]) *)
Module Columnar.
Import Json Arrow.

(** Column type inferred from the first row's value. *)
Definition infer_type (v : Value) : DataType :=
  match v with
  | Num n => if number_is_i64 n then Int64
             else if number_is_f64 n then Float64
             else Utf8
  | Str _ => Utf8
  | Bool _ => Boolean
  | _ => Utf8
  end.

Definition opt_bind {A B} (o : option A) (f : A -> option B) : option B :=
  match o with Some a => f a | None => None end.

(** The array built for one column, by the field's data type. *)
Definition build_array (rows : list Value) (column_name : string) (dt : DataType)
  : Array :=
  match dt with
  | Int64 => Int64Array (map (fun row => opt_bind (get column_name row) as_i64) rows)
  | Float64 => Float64Array (map (fun row => opt_bind (get column_name row) as_f64) rows)
  | Utf8 => StringArray (map (fun row => opt_bind (get column_name row) as_str) rows)
  | _ => StrShown (map (fun row => get column_name row) rows)
  end.

Definition json_to_record_batch (rows : list Value) : Result RecordBatch AppError :=
  match rows with
  | [] => Ok new_empty
  | first_row :: _ =>
      match as_object first_row with
      | None => Err (Database "Expected JSON object")
      | Some obj =>
          let fields := map (fun '(key, value) =>
                               {| field_name := key; data_type := infer_type value;
                                  nullable := true |}) obj in
          let column_names := map fst obj in
          let arrays := map (fun '(f, column_name) =>
                               build_array rows column_name (data_type f))
                            (combine fields column_names) in
          map_err (fun e => Database ("Failed to create RecordBatch: " ++ e))
                  (try_new fields arrays)
      end
  end.

(** The cell a batch holds at column [c] and row [j]. *)
Inductive Cell :=
| CInt (v : option Z)
| CFloat (v : option F64)
| CStr (v : option string)
| CShown (v : option Value).

Definition cell (b : RecordBatch) (c j : nat) : option Cell :=
  match nth_error (columns b) c with
  | Some (Int64Array cs) => option_map CInt (nth_error cs j)
  | Some (Float64Array cs) => option_map CFloat (nth_error cs j)
  | Some (StringArray cs) => option_map CStr (nth_error cs j)
  | Some (StrShown cs) => option_map CShown (nth_error cs j)
  | None => None
  end.

(** The cell the conversion is expected to produce for a row's value
    [v] (or its absence) under a column of type [dt]. *)
Definition expected_cell (dt : DataType) (v : option Value) : Cell :=
  match dt with
  | Int64 => CInt (opt_bind v as_i64)
  | Float64 => CFloat (opt_bind v as_f64)
  | Utf8 => CStr (opt_bind v as_str)
  | Boolean => CShown v
  end.

(** [RecordBatch::num_rows]: the batches here come from [try_new], whose
    row count is its first column's length, or from [new_empty]. *)
Definition num_rows (b : RecordBatch) : nat :=
  match columns b with [] => 0 | a :: _ => array_len a end.

Section Readback.

(** [serde_json::Value]'s [to_string], the text a [StrShown] cell holds. *)
Variable value_to_string : Value -> string.

(** The cells of an array that downcasts to a [StringArray]. *)
Definition string_cells (a : Array) : option (list (option string)) :=
  match a with
  | StringArray cs => Some cs
  | StrShown cs => Some (map (option_map value_to_string) cs)
  | _ => None
  end.

(** The JSON value [record_batches_to_json] reads for a field at a row: a
    failed downcast is a [Database] error, reading past the array's end
    panics, a set null bit is [Null]. *)
Definition field_value (f : Field) (column : Array) (row_idx : nat)
  : Result Value AppError :=
  match data_type f with
  | Int64 =>
      match column with
      | Int64Array cs =>
          match nth_error cs row_idx with
          | None => Err (Panic "index out of bounds")
          | Some None => Ok Null
          | Some (Some v) => Ok (value_from_i64 v)
          end
      | _ => Err (Database "Type mismatch")
      end
  | Float64 =>
      match column with
      | Float64Array cs =>
          match nth_error cs row_idx with
          | None => Err (Panic "index out of bounds")
          | Some None => Ok Null
          | Some (Some v) => Ok (value_from_f64 v)
          end
      | _ => Err (Database "Type mismatch")
      end
  | Utf8 =>
      match string_cells column with
      | Some cs =>
          match nth_error cs row_idx with
          | None => Err (Panic "index out of bounds")
          | Some None => Ok Null
          | Some (Some v) => Ok (Str v)
          end
      | None => Err (Database "Type mismatch")
      end
  | Boolean => Ok Null
  end.

(** The inner loop over the fields: [batch.column(col_idx)] (a panic past
    the last column), then [row_obj.insert(name, value)]. *)
Fixpoint row_entries (b : RecordBatch) (row_idx : nat) (fields : list Field) (col_idx : nat)
  (row_obj : list (string * Value)) : Result (list (string * Value)) AppError :=
  match fields with
  | [] => Ok row_obj
  | f :: fields' =>
      match nth_error (columns b) col_idx with
      | None => Err (Panic "index out of bounds")
      | Some column =>
          let* value := field_value f column row_idx in
          row_entries b row_idx fields' (S col_idx) (map_insert (field_name f) value row_obj)
      end
  end.

(** The rows of one batch, for the row indices given. *)
Fixpoint batch_rows (b : RecordBatch) (row_idxs : list nat) : Result (list Value) AppError :=
  match row_idxs with
  | [] => Ok []
  | row_idx :: row_idxs' =>
      let* row_obj := row_entries b row_idx (schema b) 0 [] in
      let* rest := batch_rows b row_idxs' in
      Ok (Obj row_obj :: rest)
  end.

(** [record_batches_to_json]. *)
Fixpoint record_batches_to_json (batches : list RecordBatch) : Result (list Value) AppError :=
  match batches with
  | [] => Ok []
  | batch :: batches' =>
      let* rs := batch_rows batch (seq 0 (num_rows batch)) in
      let* rest := record_batches_to_json batches' in
      Ok (rs ++ rest)%list
  end.

(** [record_batch_to_json]. *)
Definition record_batch_to_json (batch : RecordBatch) : Result (list Value) AppError :=
  record_batches_to_json [batch].

End Readback.

End Columnar.

(** ** Dialect translation ([services/datafusion/dialect.rs]) *)
Module Dialect.

Inductive SqlFeature :=
| ConcatOperator | ConcatFunction | IntervalSyntax | ReturningClause
| CommonTableExpressions | DoubleQuotedIdentifiers | BacktickIdentifiers.

(** The [DialectTranslator] trait; [translate] fails with an [anyhow]
    message. *)
Class DialectTranslator (T : Type) := {
  dialect_name : T -> string;
  translate : T -> string -> Result string string;
  supports_feature : T -> SqlFeature -> bool
}.

(** [Parser::parse_sql] of sqlparser, an external library: the statements
    parsed, here only counted, or the parser's message. *)
Definition Parser := string -> Result nat string.

(** [MySQLDialectTranslator]: its parser is the one it validates with. *)
Record MySQLDialectTranslator := { mysql_parse_sql : Parser }.

(** [MySQLDialectTranslator::translate_identifiers]: the scan over the
    characters, with the flags [in_string] and [in_identifier]. *)
Fixpoint translate_identifiers_loop (in_string in_identifier : bool) (sql : string)
  : string :=
  match sql with
  | EmptyString => EmptyString
  | String ch rest =>
      if Ascii.eqb ch "'"%char then
        let in_string' := if negb in_identifier then negb in_string else in_string in
        String ch (translate_identifiers_loop in_string' in_identifier rest)
      else if Ascii.eqb ch "034"%char && negb in_string then
        String "`"%char (translate_identifiers_loop in_string (negb in_identifier) rest)
      else String ch (translate_identifiers_loop in_string in_identifier rest)
  end.

Definition translate_identifiers (sql : string) : string :=
  translate_identifiers_loop false false sql.

(** [MySQLDialectTranslator::translate_interval]. *)
Definition translate_interval (sql : string) : string :=
  let result := sql in
  let result := str_replace "INTERVAL '1 day'" "INTERVAL 1 DAY" result in
  let result := str_replace "INTERVAL '7 days'" "INTERVAL 7 DAY" result in
  let result := str_replace "INTERVAL '30 days'" "INTERVAL 30 DAY" result in
  let result := str_replace "INTERVAL '1 hour'" "INTERVAL 1 HOUR" result in
  let result := str_replace "INTERVAL '1 month'" "INTERVAL 1 MONTH" result in
  str_replace "INTERVAL '1 year'" "INTERVAL 1 YEAR" result.

(** [MySQLDialectTranslator::translate_date_functions]. *)
Definition translate_date_functions (sql : string) : string :=
  let result := str_replace "CURRENT_DATE" "CURDATE()" sql in
  str_replace "CURRENT_TIMESTAMP" "NOW()" result.

Definition mysql_translate (t : MySQLDialectTranslator) (datafusion_sql : string)
  : Result string string :=
  match mysql_parse_sql t datafusion_sql with
  | Err e => Err ("Failed to parse SQL for MySQL translation: " ++ e)
  | Ok O => Err "Empty SQL statement"
  | Ok (S _) =>
      let translated := datafusion_sql in
      let translated := translate_identifiers translated in
      let translated := translate_interval translated in
      let translated := translate_date_functions translated in
      Ok translated
  end.

Definition mysql_supports_feature (_ : MySQLDialectTranslator) (f : SqlFeature) : bool :=
  match f with
  | ConcatOperator => false
  | ConcatFunction => true
  | IntervalSyntax => true
  | ReturningClause => false
  | CommonTableExpressions => true
  | DoubleQuotedIdentifiers => false
  | BacktickIdentifiers => true
  end.

#[export] Instance mysql_translator : DialectTranslator MySQLDialectTranslator := {
  dialect_name := fun _ => "MySQL";
  translate := mysql_translate;
  supports_feature := mysql_supports_feature
}.

(** [PostgreSQLDialectTranslator]: its parser is sqlparser with the
    [PostgreSqlDialect]. *)
Record PostgreSQLDialectTranslator := { pg_parse_sql : Parser }.

(** [PostgreSQLDialectTranslator::translate]: parse, refuse an empty
    statement list, return the text unchanged. *)
Definition pg_translate (t : PostgreSQLDialectTranslator) (datafusion_sql : string)
  : Result string string :=
  match pg_parse_sql t datafusion_sql with
  | Err e => Err ("Failed to parse SQL for PostgreSQL: " ++ e)
  | Ok O => Err "Empty SQL statement"
  | Ok (S _) =>
      let translated := datafusion_sql in
      Ok translated
  end.

Definition pg_supports_feature (_ : PostgreSQLDialectTranslator) (f : SqlFeature) : bool :=
  match f with
  | ConcatOperator => true
  | ConcatFunction => true
  | IntervalSyntax => true
  | ReturningClause => true
  | CommonTableExpressions => true
  | DoubleQuotedIdentifiers => true
  | BacktickIdentifiers => false
  end.

#[export] Instance postgresql_translator : DialectTranslator PostgreSQLDialectTranslator := {
  dialect_name := fun _ => "PostgreSQL";
  translate := pg_translate;
  supports_feature := pg_supports_feature
}.

(** [GenericDialectTranslator], the pass-through translator. *)
Inductive GenericDialectTranslator : Set := GenericDialectTranslator_new.

#[export] Instance generic_translator : DialectTranslator GenericDialectTranslator := {
  dialect_name := fun _ => "Generic";
  translate := fun _ datafusion_sql => Ok datafusion_sql;
  supports_feature := fun _ _ => true
}.

End Dialect.

(** ** SQL syntax trees ([sqlparser::ast]), the part the planner inspects *)
Module Ast.

(** [Ident]: its value and its quote character, if quoted. *)
Record Ident := { value : string; quote_style : option ascii }.

Definition ident (s : string) : Ident := {| value := s; quote_style := None |}.

Inductive BinaryOperator := Eq | And | Or | Gt | GtEq | Lt | LtEq | Minus | Plus.

Inductive SetOperator := Union | Except | Intersect.

(** The quantifier of a set operation: [UNION ALL], [UNION DISTINCT], or
    none written. *)
Inductive SetQuantifier := QAll | QDistinct | QNone.

Inductive Expr :=
| Identifier (i : Ident)
| CompoundIdentifier (idents : list Ident)
| BinaryOp (left : Expr) (op : BinaryOperator) (right : Expr)
| InSubquery (e : Expr) (subquery : Query) (negated : bool)
| Literal (text : string)
with Query :=
| MkQuery (body : SetExpr)
with SetExpr :=
| SelectE (s : Select)
| SetOperation (op : SetOperator) (q : SetQuantifier) (left right : SetExpr)
| QueryE (q : Query)
| Values
with Select :=
| MkSelect (projection : list SelectItem) (from : list TableWithJoins)
           (selection : option Expr)
with SelectItem :=
| Wildcard
| UnnamedExpr (e : Expr)
with TableWithJoins :=
| MkTableWithJoins (relation : TableFactor) (joins : list Join)
with TableFactor :=
| Table (name : list Ident) (alias : option Ident)
| Derived (subquery : Query) (alias : option Ident)
with Join :=
| MkJoin (relation : TableFactor) (join_operator : JoinOperator)
with JoinOperator :=
| PlainJoin (c : JoinConstraint)  (* [JoinOperator::Join]: a [JOIN] with no keyword before it *)
| Inner (c : JoinConstraint)
| Left (c : JoinConstraint)
| LeftOuter (c : JoinConstraint)
| Right (c : JoinConstraint)
| RightOuter (c : JoinConstraint)
| FullOuter (c : JoinConstraint)
| CrossJoin
with JoinConstraint :=
| On (e : Expr)
| Natural
| NoConstraint.

Inductive Statement :=
| QueryS (q : Query)
| OtherStatement.

Definition select_from (s : Select) : list TableWithJoins :=
  match s with MkSelect _ f _ => f end.

(** [Ident]'s [Display]: the value, between its quotes if quoted, a quote
    inside being doubled. *)
Definition closing_quote (q : ascii) : ascii :=
  if Ascii.eqb q "["%char then "]"%char else q.

Fixpoint escape_quoted (q : ascii) (s : string) : string :=
  match s with
  | EmptyString => EmptyString
  | String c s' =>
      if Ascii.eqb c q then String c (String c (escape_quoted q s'))
      else String c (escape_quoted q s')
  end.

Definition ident_to_string (i : Ident) : string :=
  match quote_style i with
  | None => value i
  | Some q => String q (escape_quoted (closing_quote q) (value i)
                        ++ String (closing_quote q) EmptyString)
  end.

Definition binop_to_string (op : BinaryOperator) : string :=
  match op with
  | Eq => "=" | And => "AND" | Or => "OR" | Gt => ">" | GtEq => ">="
  | Lt => "<" | LtEq => "<=" | Minus => "-" | Plus => "+"
  end.

Definition setop_to_string (op : SetOperator) (q : SetQuantifier) : string :=
  (match op with Union => "UNION" | Except => "EXCEPT" | Intersect => "INTERSECT" end)
  ++ (match q with QAll => " ALL" | QDistinct => " DISTINCT" | QNone => "" end).

Definition alias_to_string (a : option Ident) : string :=
  match a with Some i => " AS " ++ ident_to_string i | None => "" end.

(** The [Display] implementations of the syntax trees. *)
Fixpoint display_expr (e : Expr) : string :=
  match e with
  | Identifier i => ident_to_string i
  | CompoundIdentifier is => join_strings "." (map ident_to_string is)
  | BinaryOp l op r => display_expr l ++ " " ++ binop_to_string op ++ " " ++ display_expr r
  | InSubquery e q n =>
      display_expr e ++ (if n then " NOT IN (" else " IN (") ++ display_query q ++ ")"
  | Literal t => t
  end
with display_query (q : Query) : string :=
  match q with MkQuery b => display_set_expr b end
with display_set_expr (b : SetExpr) : string :=
  match b with
  | SelectE s => display_select s
  | SetOperation op q l r =>
      display_set_expr l ++ " " ++ setop_to_string op q ++ " " ++ display_set_expr r
  | QueryE q => "(" ++ display_query q ++ ")"
  | Values => "VALUES ()"
  end
with display_select (s : Select) : string :=
  match s with
  | MkSelect proj from sel =>
      "SELECT " ++ join_strings ", " (map display_item proj)
      ++ (match from with
          | [] => ""
          | _ => " FROM " ++ join_strings ", " (map display_twj from)
          end)
      ++ (match sel with Some e => " WHERE " ++ display_expr e | None => "" end)
  end
with display_item (i : SelectItem) : string :=
  match i with Wildcard => "*" | UnnamedExpr e => display_expr e end
with display_twj (t : TableWithJoins) : string :=
  match t with
  | MkTableWithJoins rel joins =>
      display_factor rel ++ String.concat "" (map display_join joins)
  end
with display_factor (f : TableFactor) : string :=
  match f with
  | Table name a => join_strings "." (map ident_to_string name) ++ alias_to_string a
  | Derived q a => "(" ++ display_query q ++ ")" ++ alias_to_string a
  end
with display_join (j : Join) : string :=
  match j with
  | MkJoin rel op =>
      let kw c k := (match c with Natural => " NATURAL" | _ => "" end)
                    ++ " " ++ k ++ " " ++ display_factor rel
                    ++ (match c with On e => " ON " ++ display_expr e | _ => "" end) in
      match op with
      | PlainJoin c => kw c "JOIN"
      | Inner c => kw c "INNER JOIN"
      | Left c => kw c "LEFT JOIN"
      | LeftOuter c => kw c "LEFT OUTER JOIN"
      | Right c => kw c "RIGHT JOIN"
      | RightOuter c => kw c "RIGHT OUTER JOIN"
      | FullOuter c => kw c "FULL JOIN"
      | CrossJoin => " CROSS JOIN " ++ display_factor rel
      end
  end.

End Ast.

(** ** Request, plan and response ([models::cross_database_query]) *)
Module Model.

Record JoinCondition := {
  left_alias : string; left_column : string;
  right_alias : string; right_column : string
}.

Inductive MergeStrategy :=
| NoMerge
| InnerJoin (conditions : list JoinCondition)
| LeftJoin (conditions : list JoinCondition)
| UnionMerge (all : bool).

Record SubQuery := {
  connection_id : string;
  database_type : string;
  sq_query : string;
  tables : list string;
  result_alias : string
}.

Record CrossDatabaseExecutionPlan := {
  original_query : string;
  sub_queries : list SubQuery;
  merge_strategy : MergeStrategy;
  timeout_secs : nat;
  apply_limit : bool;
  limit_value : nat
}.

Record CrossDatabaseQueryRequest := {
  req_query : string;
  connection_ids : list string;
  database_aliases : option (list (string * string));
  req_timeout_secs : option nat;
  req_apply_limit : option bool;
  req_limit_value : option nat
}.

(** Modelled from the spec: [CrossDatabaseQueryRequest::validate], whose
    source file [models/cross_database_query.rs] is not in the repository
    snapshot; the spec (section 3) says a request is validated as having a
    non-empty query and at least one connection before planning. *)
Definition validate (r : CrossDatabaseQueryRequest) : Result unit string :=
  if String.eqb (req_query r) "" then Err "Query cannot be empty"
  else match connection_ids r with
       | [] => Err "At least one connection ID is required"
       | _ => Ok tt
       end.

(** Modelled from the spec: [CrossDatabaseQueryRequest::new(query, ids)]
    (same missing file): a request with the optional fields unset, their
    defaults (timeout 60, apply_limit true, limit 1000) being filled in by
    the planner. *)
Definition request_new (query : string) (ids : list string) : CrossDatabaseQueryRequest :=
  {| req_query := query; connection_ids := ids; database_aliases := None;
     req_timeout_secs := None; req_apply_limit := None; req_limit_value := None |}.

Record SubQueryExecution := {
  exec_connection_id : string;
  exec_database_type : string;
  exec_query : string;
  exec_row_count : nat
}.

Record CrossDatabaseQueryResponse := {
  resp_original_query : string;
  resp_sub_queries : list SubQueryExecution;
  merged_rows : list Json.Value;
  row_count : nat;
  limit_applied : bool
}.

(** Modelled from the spec: [CrossDatabaseQueryResponse::new] (same missing
    file), building the response of section 6 from the original query, the
    sub-query reports, the merged rows and the [limit_applied] flag it is
    given; [row_count] is the number of merged rows.  Elapsed times are not
    modelled. *)
Definition response_new (original : string) (subs : list SubQueryExecution)
  (rows : list Json.Value) (limit_applied_flag : bool) : CrossDatabaseQueryResponse :=
  {| resp_original_query := original; resp_sub_queries := subs;
     merged_rows := rows; row_count := length rows;
     limit_applied := limit_applied_flag |}.

End Model.

(** ** The cross-database query planner ([cross_db_planner.rs]) *)
Module Planner.
Import Ast Model.

(** A table reference: (qualifier, alias, table name). *)
Definition TableRef : Type := (string * option string * string)%type.

Definition unwrap_or {A} (o : option A) (d : A) : A :=
  match o with Some a => a | None => d end.

(** [CrossDatabaseQueryPlanner::new]: each connection ID is its own
    qualifier.  (The model lists the map in insertion order; the theorems
    below take the planner's map as an arbitrary list instead.) *)
Definition planner_new (ids : list string) : list (string * string) :=
  fold_left (fun m id => map_insert id id m) ids [].

(** [CrossDatabaseQueryPlanner::from_request]. *)
Definition from_request (r : CrossDatabaseQueryRequest) : list (string * string) :=
  match database_aliases r with
  | Some aliases => aliases
  | None => planner_new (connection_ids r)
  end.

(** Rust's [{:?}] of the list of keys, as in the error message. *)
Definition debug_keys (m : list (string * string)) : string :=
  "[" ++ join_strings ", " (map (fun '(k, _) => dquote ++ k ++ dquote) m) ++ "]".

(** The tables of a [Select] in the order [extract_tables] visits them: each
    [FROM] item's relation, then its joined relations. *)
Definition table_factors (s : Select) : list TableFactor :=
  flat_map (fun twj => match twj with
                       | MkTableWithJoins rel joins =>
                           rel :: map (fun j => match j with MkJoin r _ => r end) joins
                       end) (select_from s).


Section Planner.

(** [Parser::parse_sql(&GenericDialect {}, _)] of sqlparser. *)
Variable parse_sql : string -> Result (list Statement) string.

(** The planner's [connection_map] (qualifier to connection ID), listed in
    its iteration order. *)
Variable connection_map : list (string * string).

(** [parse_table_name]. *)
Definition parse_table_name (name : list Ident) : Result (string * string) AppError :=
  let parts := map ident_to_string name in
  match parts with
  | [t] =>
      match connection_map with
      | [] => Err (Validation "No connection IDs available")
      | (first_conn_id, _) :: _ => Ok (first_conn_id, t)
      end
  | [qualifier; table_name] =>
      if negb (contains_key qualifier connection_map)
      then Err (Validation ("Unknown database qualifier '" ++ qualifier
                            ++ "'. Available: " ++ debug_keys connection_map))
      else Ok (qualifier, table_name)
  | _ => Err (InvalidSql ("Invalid table name format: " ++ join_strings "." parts
                          ++ ". Expected 'table' or 'db.table'"))
  end.

(** [extract_tables]: only [TableFactor::Table] relations are collected. *)
Fixpoint extract_tables_from (fs : list TableFactor) : Result (list TableRef) AppError :=
  match fs with
  | [] => Ok []
  | Table name alias :: fs' =>
      match parse_table_name name with
      | Err e => Err e
      | Ok (qualifier, table_name) =>
          let alias_name := option_map value alias in
          let* rest := extract_tables_from fs' in
          Ok ((qualifier, alias_name, table_name) :: rest)
      end
  | Derived _ _ :: fs' => extract_tables_from fs'
  end.

Definition extract_tables (s : Select) : Result (list TableRef) AppError :=
  extract_tables_from (table_factors s).

(** [databases.entry(conn_id).or_insert_with(Vec::new).push(table_name)]. *)
Fixpoint entry_push (conn_id table_name : string) (d : list (string * list string))
  : list (string * list string) :=
  match d with
  | [] => [(conn_id, [table_name])]
  | (c, ts) :: d' =>
      if String.eqb conn_id c then (c, (ts ++ [table_name])%list) :: d'
      else (c, ts) :: entry_push conn_id table_name d'
  end.

(** [identify_databases]: tables grouped by connection ID. *)
Fixpoint identify_databases_acc (ts : list TableRef) (d : list (string * list string))
  : Result (list (string * list string)) AppError :=
  match ts with
  | [] => Ok d
  | (qualifier, _, table_name) :: ts' =>
      match map_get qualifier connection_map with
      | None => Err (Validation ("Unknown qualifier: " ++ qualifier))
      | Some conn_id => identify_databases_acc ts' (entry_push conn_id table_name d)
      end
  end.

Definition identify_databases (ts : list TableRef) :=
  identify_databases_acc ts [].

(** [strip_qualifiers]: every ["alias."] of the map removed from the text. *)
Definition strip_qualifiers (sql : string) : Result string AppError :=
  match parse_sql sql with
  | Err e => Err (InvalidSql ("Failed to parse query: " ++ e))
  | Ok [] => Err (InvalidSql "Empty query")
  | Ok _ =>
      Ok (fold_left (fun result '(alias, _) => str_replace (alias ++ ".") "" result)
                    connection_map sql)
  end.

Definition plan_of (r : CrossDatabaseQueryRequest) (subs : list SubQuery)
  (m : MergeStrategy) : CrossDatabaseExecutionPlan :=
  {| original_query := req_query r; sub_queries := subs; merge_strategy := m;
     timeout_secs := unwrap_or (req_timeout_secs r) 60;
     apply_limit := unwrap_or (req_apply_limit r) true;
     limit_value := unwrap_or (req_limit_value r) 1000 |}.

(** [plan_single_database_query]; [tables[0]] panics on an empty list. *)
Definition plan_single_database_query (ts : list TableRef) (r : CrossDatabaseQueryRequest)
  : Result CrossDatabaseExecutionPlan AppError :=
  match ts with
  | [] => Err (Panic "index out of bounds")
  | (qualifier, _, _) :: _ =>
      match map_get qualifier connection_map with
      | None => Err (Validation ("Unknown qualifier: " ++ qualifier))
      | Some conn_id =>
          let* query_without_qualifiers := strip_qualifiers (req_query r) in
          let sub_query := {| connection_id := conn_id; database_type := "unknown";
                              sq_query := query_without_qualifiers;
                              tables := map (fun '(_, _, t) => t) ts;
                              result_alias := "result" |} in
          Ok (plan_of r [sub_query] NoMerge)
      end
  end.

(** [extract_table_column]: a two-part [qualifier.column] has its qualifier
    looked up in [table_aliases]; a bare column gives nothing.  (The Rust
    function returns a [Result] that is never an error.) *)
Definition extract_table_column (e : Expr) (table_aliases : list (string * string))
  : option (string * string) :=
  match e with
  | CompoundIdentifier [t; c] =>
      let table := value t in
      Some (unwrap_or (map_get table table_aliases) table, value c)
  | _ => None
  end.

(** [parse_all_join_conditions]: equalities collected through [AND]. *)
Fixpoint parse_all_join_conditions (e : Expr) (table_aliases : list (string * string))
  : list JoinCondition :=
  match e with
  | BinaryOp l And r =>
      (parse_all_join_conditions l table_aliases
       ++ parse_all_join_conditions r table_aliases)%list
  | BinaryOp l Eq r =>
      match extract_table_column l table_aliases, extract_table_column r table_aliases with
      | Some (left_table, left_col), Some (right_table, right_col) =>
          [{| left_alias := left_table; left_column := left_col;
              right_alias := right_table; right_column := right_col |}]
      | _, _ => []
      end
  | _ => []
  end.

(** [parse_join_expr]: the first equality found, following only the left
    operand of an [AND]. *)
Fixpoint parse_join_expr (e : Expr) (table_aliases : list (string * string))
  : option JoinCondition :=
  match e with
  | BinaryOp l Eq r =>
      match extract_table_column l table_aliases, extract_table_column r table_aliases with
      | Some (left_table, left_col), Some (right_table, right_col) =>
          Some {| left_alias := left_table; left_column := left_col;
                  right_alias := right_table; right_column := right_col |}
      | _, _ => None
      end
  | BinaryOp l And _ => parse_join_expr l table_aliases
  | _ => None
  end.

(** [extract_join_conditions]: [table_aliases] maps each table name to its
    alias (to itself when it has none). *)
Definition extract_join_conditions (s : Select) (ts : list TableRef) : list JoinCondition :=
  let table_aliases :=
    fold_left (fun m '(_, alias, table_name) =>
                 map_insert table_name (unwrap_or alias table_name) m) ts [] in
  flat_map (fun twj =>
    match twj with
    | MkTableWithJoins _ joins =>
        flat_map (fun j =>
          match j with
          | MkJoin _ (Inner c) | MkJoin _ (LeftOuter c) | MkJoin _ (RightOuter c) =>
              match c with
              | On e => parse_all_join_conditions e table_aliases
              | _ => []
              end
          | _ => []
          end) joins
    end) (select_from s).

(** [plan_join_query]: one [SELECT *] sub-query per connection.  The
    [table_to_conn] map the Rust code builds is never read and is left out;
    its [unwrap], like the one in the [result_alias] search, cannot fail as
    [identify_databases] has already looked every qualifier up. *)
Definition plan_join_query (s : Select) (ts : list TableRef) (r : CrossDatabaseQueryRequest)
  : Result CrossDatabaseExecutionPlan AppError :=
  let* databases := identify_databases ts in
  let join_conditions := extract_join_conditions s ts in
  let sub_queries :=
    map (fun '(conn_id, table_names) =>
      let query := "SELECT * FROM " ++ join_strings ", " table_names in
      let result_alias :=
        match find (fun '(q, _, t) =>
                      match map_get q connection_map with
                      | Some cid => String.eqb cid conn_id
                                    && existsb (String.eqb t) table_names
                      | None => false
                      end) ts with
        | Some (_, a, t) => unwrap_or a t
        | None => "result_" ++ conn_id
        end in
      {| connection_id := conn_id; database_type := "unknown"; sq_query := query;
         tables := table_names; result_alias := result_alias |}) databases in
  let merge_strategy :=
    match join_conditions with
    | [] => InnerJoin []
    | _ => InnerJoin join_conditions
    end in
  Ok (plan_of r sub_queries merge_strategy).

(** [extract_set_operation_selects]: the [Display] of every [SELECT] leaf of
    the set-operation tree, left to right; other leaves are skipped. *)
Fixpoint extract_set_operation_selects (b : SetExpr) : list string :=
  match b with
  | SelectE s => [display_select s]
  | SetOperation _ _ l r =>
      (extract_set_operation_selects l ++ extract_set_operation_selects r)%list
  | QueryE (MkQuery b') => extract_set_operation_selects b'
  | Values => []
  end.

Definition extract_union_selects (q : Query) : Result (list string) AppError :=
  match q with
  | MkQuery b =>
      match extract_set_operation_selects b with
      | [] => Err (InvalidSql "No SELECT statements found in UNION")
      | selects => Ok selects
      end
  end.

(** The loop of [plan_union_query] over the [SELECT] texts, from index [idx]. *)
Fixpoint union_sub_queries (idx : nat) (select_queries : list string)
  : Result (list SubQuery) AppError :=
  match select_queries with
  | [] => Ok []
  | select_sql :: rest =>
      match parse_sql select_sql with
      | Err e => Err (InvalidSql ("Failed to parse UNION SELECT: " ++ e))
      | Ok (QueryS (MkQuery (SelectE s)) :: _) =>
          let* ts := extract_tables s in
          match ts with
          | [] => union_sub_queries (S idx) rest
          | (qualifier, _, _) :: _ =>
              match map_get qualifier connection_map with
              | None => Err (Validation ("Unknown qualifier: " ++ qualifier))
              | Some conn_id =>
                  let* stripped_sql := strip_qualifiers select_sql in
                  let sq := {| connection_id := conn_id; database_type := "unknown";
                               sq_query := stripped_sql;
                               tables := map (fun '(_, _, t) => t) ts;
                               result_alias := "union_part_" ++ nat_to_string idx |} in
                  let* subs := union_sub_queries (S idx) rest in
                  Ok (sq :: subs)
              end
          end
      | Ok _ => union_sub_queries (S idx) rest
      end
  end.

(** [plan_union_query]; [is_union_all] is [matches!(op, SetOperator::Union)]. *)
Definition plan_union_query (q : Query) (r : CrossDatabaseQueryRequest) (op : SetOperator)
  : Result CrossDatabaseExecutionPlan AppError :=
  let is_union_all := match op with Union => true | _ => false end in
  let* select_queries := extract_union_selects q in
  match select_queries with
  | [] => Err (InvalidSql "No SELECT statements found in UNION")
  | _ =>
      let* sub_queries := union_sub_queries 0 select_queries in
      match sub_queries with
      | [] => Err (InvalidSql "No valid sub-queries found in UNION")
      | _ => Ok (plan_of r sub_queries (UnionMerge is_union_all))
      end
  end.

(** [plan_select_query]. *)
Definition plan_select_query (q : Query) (r : CrossDatabaseQueryRequest)
  : Result CrossDatabaseExecutionPlan AppError :=
  match q with
  | MkQuery (SetOperation op _ _ _) => plan_union_query q r op
  | MkQuery (SelectE s) =>
      let* ts := extract_tables s in
      match ts with
      | [] => Err (InvalidSql "No tables found in query")
      | _ =>
          let* databases := identify_databases ts in
          if Nat.eqb (length databases) 1
          then plan_single_database_query ts r
          else plan_join_query s ts r
      end
  | MkQuery _ => Err (InvalidSql "Unsupported query structure for cross-database execution")
  end.

(** [plan_query]. *)
Definition plan_query (r : CrossDatabaseQueryRequest)
  : Result CrossDatabaseExecutionPlan AppError :=
  let* _ := map_err Validation (validate r) in
  match parse_sql (req_query r) with
  | Err e => Err (InvalidSql ("Failed to parse query: " ++ e))
  | Ok [] => Err (InvalidSql "Empty query")
  | Ok (QueryS q :: _) => plan_select_query q r
  | Ok (OtherStatement :: _) =>
      Err (InvalidSql "Only SELECT queries are supported for cross-database execution")
  end.

End Planner.

(** The [SELECT] leaves of a set-operation tree, in the order
    [extract_set_operation_selects] visits them. *)
Fixpoint select_leaves (b : SetExpr) : list Select :=
  match b with
  | SelectE s => [s]
  | SetOperation _ _ l r => (select_leaves l ++ select_leaves r)%list
  | QueryE (MkQuery b') => select_leaves b'
  | Values => []
  end.

(** The [SELECT]s whose [FROM] tables [plan_select_query] resolves: the
    query's own [SELECT], or the leaves of a top-level set operation. *)
Definition top_selects (q : Query) : list Select :=
  match q with
  | MkQuery (SelectE s) => [s]
  | MkQuery (SetOperation _ _ _ _ as b) => select_leaves b
  | MkQuery _ => []
  end.

Definition is_set_query (q : Query) : bool :=
  match q with
  | MkQuery (SetOperation _ _ _ _) => true
  | MkQuery _ => false
  end.
End Planner.

(** ** Example queries of the spec and of the tests, as parsed by sqlparser *)
Module Examples.
Import Ast Model.

Definition cid (q c : string) : Expr := CompoundIdentifier [ident q; ident c].
Definition tbl (q t : string) : list Ident := [ident q; ident t].

(** [SELECT u.id, t.title FROM conn1.users u <op> conn2.todos t ON u.id = t.user_id]
    for the join operator [op]. *)
Definition join_select_with (op : JoinConstraint -> JoinOperator) : Select :=
  MkSelect [UnnamedExpr (cid "u" "id"); UnnamedExpr (cid "t" "title")]
    [MkTableWithJoins (Table (tbl "conn1" "users") (Some (ident "u")))
       [MkJoin (Table (tbl "conn2" "todos") (Some (ident "t")))
               (op (On (BinaryOp (cid "u" "id") Eq (cid "t" "user_id"))))]]
    None.

(** The spec's example: sqlparser (from 0.55 on, the version whose [Query]
    has the [limit_clause] that [sql_validator.rs] reads) parses a plain
    [JOIN] as [JoinOperator::Join] ([PlainJoin]), not as
    [JoinOperator::Inner]. *)
Definition join_select : Select := join_select_with PlainJoin.
Definition join_sql : string :=
  "SELECT u.id, t.title FROM conn1.users u JOIN conn2.todos t ON u.id = t.user_id".

(** The same query written with [INNER JOIN], parsed as [JoinOperator::Inner]. *)
Definition inner_join_select : Select := join_select_with Inner.
Definition inner_join_sql : string :=
  "SELECT u.id, t.title FROM conn1.users u INNER JOIN conn2.todos t ON u.id = t.user_id".

(** [SELECT * FROM conn1.users UNION SELECT * FROM conn2.users], and the
    same with [UNION ALL]. *)
Definition users_of (q : string) : Select :=
  MkSelect [Wildcard] [MkTableWithJoins (Table (tbl q "users") None) []] None.
Definition union_body (quant : SetQuantifier) : SetExpr :=
  SetOperation Union quant (SelectE (users_of "conn1")) (SelectE (users_of "conn2")).
Definition union_sql : string :=
  "SELECT * FROM conn1.users UNION SELECT * FROM conn2.users".
Definition union_all_sql : string :=
  "SELECT * FROM conn1.users UNION ALL SELECT * FROM conn2.users".

(** [SELECT * FROM conn1.users WHERE id IN (SELECT id FROM unknown.t)] *)
Definition nested_unknown_select : Select :=
  MkSelect [Wildcard] [MkTableWithJoins (Table (tbl "conn1" "users") None) []]
    (Some (InSubquery (Identifier (ident "id"))
             (MkQuery (SelectE (MkSelect [UnnamedExpr (Identifier (ident "id"))]
                                 [MkTableWithJoins (Table (tbl "unknown" "t") None) []]
                                 None)))
             false)).
Definition nested_unknown_sql : string :=
  "SELECT * FROM conn1.users WHERE id IN (SELECT id FROM unknown.t)".

(** [SELECT * FROM users]: an unqualified table. *)
Definition bare_users_select : Select :=
  MkSelect [Wildcard] [MkTableWithJoins (Table [ident "users"] None) []] None.
Definition bare_users_sql : string := "SELECT * FROM users".

(** [SELECT * FROM conn1.users UNION SELECT * FROM unknown.users] *)
Definition union_unknown_body : SetExpr :=
  SetOperation Union QNone (SelectE (users_of "conn1")) (SelectE (users_of "unknown")).
Definition union_unknown_sql : string :=
  "SELECT * FROM conn1.users UNION SELECT * FROM unknown.users".

(** The [Display] of the two union arms. *)
Definition arm1_sql : string := "SELECT * FROM conn1.users".
Definition arm2_sql : string := "SELECT * FROM conn2.users".

(** The planner map of [CrossDatabaseQueryPlanner::new(vec!["conn1", "conn2"])],
    in either iteration order. *)
Definition two_connections (cmap : list (string * string)) : Prop :=
  cmap = [("conn1", "conn1"); ("conn2", "conn2")]
  \/ cmap = [("conn2", "conn2"); ("conn1", "conn1")].

(** A parser that knows the texts above (and the [Display] of the union
    arms) and rejects everything else. *)
Definition parse_sql_examples (sql : string) : Result (list Statement) string :=
  if String.eqb sql join_sql then Ok [QueryS (MkQuery (SelectE join_select))]
  else if String.eqb sql inner_join_sql then Ok [QueryS (MkQuery (SelectE inner_join_select))]
  else if String.eqb sql union_sql then Ok [QueryS (MkQuery (union_body QNone))]
  else if String.eqb sql union_all_sql then Ok [QueryS (MkQuery (union_body QAll))]
  else if String.eqb sql nested_unknown_sql
  then Ok [QueryS (MkQuery (SelectE nested_unknown_select))]
  else if String.eqb sql bare_users_sql then Ok [QueryS (MkQuery (SelectE bare_users_select))]
  else if String.eqb sql union_unknown_sql then Ok [QueryS (MkQuery union_unknown_body)]
  else if String.eqb sql (display_select (users_of "unknown"))
  then Ok [QueryS (MkQuery (SelectE (users_of "unknown")))]
  else if String.eqb sql (display_select (users_of "conn1"))
  then Ok [QueryS (MkQuery (SelectE (users_of "conn1")))]
  else if String.eqb sql (display_select (users_of "conn2"))
  then Ok [QueryS (MkQuery (SelectE (users_of "conn2")))]
  else Err "sql parser error".

End Examples.

(** ** The federated executor ([federated_executor.rs]) *)
Module Executor.
Import Json Arrow Columnar Model.

(** What one awaited adapter call gives: rows, an adapter error, or the
    [tokio::time::timeout] elapsing. *)
Inductive AdapterOutcome :=
| AdapterRows (rows : list Value)
| AdapterError (msg : string)
| AdapterTimeout.

(** A [Box<dyn DatabaseAdapter>]: [database_type()] and [execute_query]. *)
Record Adapter := {
  adapter_database_type : string;
  execute_query : string -> nat -> AdapterOutcome
}.

Record SubQueryResult := {
  r_connection_id : string;
  r_database_type : string;
  r_query : string;
  rows : list Value
}.

Section Executor.

(** The DataFusion session: [ctx.sql(sql)] over the registered batches,
    collected and turned back into JSON rows by [record_batches_to_json];
    the error is DataFusion's message. *)
Variable df_sql : list (string * RecordBatch) -> string -> Result (list Value) string.

(** [DataFrame::limit(0, Some(n))] when [apply_limit]. *)
Definition apply_df_limit (apply_limit_flag : bool) (limit : nat) (df : list Value) :=
  if apply_limit_flag then firstn limit df else df.

(** [execute_sub_queries_parallel]: the adapters are awaited one after the
    other; the first failure aborts. *)
Fixpoint execute_sub_queries_parallel (sqs : list SubQuery)
  (adapters : list (string * Adapter)) (timeout : nat)
  : Result (list SubQueryResult) AppError :=
  match sqs with
  | [] => Ok []
  | sq :: sqs' =>
      match map_get (connection_id sq) adapters with
      | None => Err (Validation ("Adapter not found: " ++ connection_id sq))
      | Some adapter =>
          match execute_query adapter (sq_query sq) timeout with
          | AdapterTimeout =>
              Err (Database ("Sub-query timeout after " ++ nat_to_string timeout
                             ++ " seconds"))
          | AdapterError e => Err (Database ("Sub-query execution failed: " ++ e))
          | AdapterRows rs =>
              let result := {| r_connection_id := connection_id sq;
                               r_database_type := adapter_database_type adapter;
                               r_query := sq_query sq; rows := rs |} in
              let* rest := execute_sub_queries_parallel sqs' adapters timeout in
              Ok (result :: rest)
          end
      end
  end.

(** [build_join_sql]: only the first condition is used. *)
Definition build_join_sql (conditions : list JoinCondition) (table_count : nat) : string :=
  match conditions with
  | first_cond :: _ =>
      if Nat.ltb table_count 2 then "SELECT * FROM table_0"
      else "SELECT * FROM table_0 INNER JOIN table_1 ON table_0." ++ left_column first_cond
           ++ " = table_1." ++ right_column first_cond
  | [] => "SELECT * FROM table_0"
  end.

(** [build_cartesian_product_sql]. *)
Definition build_cartesian_product_sql (table_count : nat) : string :=
  if Nat.ltb table_count 2 then "SELECT * FROM table_0"
  else "SELECT * FROM table_0"
       ++ String.concat "" (map (fun i => ", table_" ++ nat_to_string i)
                              (seq 1 (table_count - 1))).

(** The batches [merge_with_join] registers: non-empty results only, named
    by their index. *)
Fixpoint register_join_tables (idx : nat) (subs : list SubQueryResult)
  : Result (list (string * RecordBatch)) AppError :=
  match subs with
  | [] => Ok []
  | r :: subs' =>
      match rows r with
      | [] => register_join_tables (S idx) subs'
      | _ =>
          let* batch := json_to_record_batch (rows r) in
          let* rest := register_join_tables (S idx) subs' in
          Ok (("table_" ++ nat_to_string idx, batch) :: rest)
      end
  end.

(** The data frame of [merge_with_join] before its limit. *)
Definition join_frame (subs : list SubQueryResult) (conditions : list JoinCondition)
  : Result (list Value) AppError :=
  if Nat.ltb (length subs) 2
  then Err (Validation "JOIN requires at least 2 sub-queries")
  else
    let* registered := register_join_tables 0 subs in
    let join_sql := match conditions with
                    | [] => build_cartesian_product_sql (length subs)
                    | _ => build_join_sql conditions (length subs)
                    end in
    map_err (fun e => Database ("Failed to execute JOIN SQL: " ++ e))
            (df_sql registered join_sql).

Definition merge_with_join (subs : list SubQueryResult) (conditions : list JoinCondition)
  (apply_limit_flag : bool) (limit : nat) : Result (list Value) AppError :=
  let* df := join_frame subs conditions in
  Ok (apply_df_limit apply_limit_flag limit df).

(** The batches [merge_with_union] registers: every result. *)
Fixpoint register_union_tables (idx : nat) (subs : list SubQueryResult)
  : Result (list (string * RecordBatch)) AppError :=
  match subs with
  | [] => Ok []
  | r :: subs' =>
      let* batch := json_to_record_batch (rows r) in
      let* rest := register_union_tables (S idx) subs' in
      Ok (("temp_table_" ++ nat_to_string idx, batch) :: rest)
  end.

(** The data frame of [merge_with_union] before its limit. *)
Definition union_frame (subs : list SubQueryResult) (all : bool)
  : Result (list Value) AppError :=
  let* registered := register_union_tables 0 subs in
  let select_statements := map (fun '(table_name, _) => "SELECT * FROM " ++ table_name)
                               registered in
  let union_operator := if all then " UNION ALL " else " UNION " in
  let union_query := join_strings union_operator select_statements in
  map_err (fun e => Database ("Failed to execute UNION: " ++ e))
          (df_sql registered union_query).

Definition merge_with_union (subs : list SubQueryResult) (all : bool)
  (apply_limit_flag : bool) (limit : nat) : Result (list Value) AppError :=
  let* df := union_frame subs all in
  Ok (apply_df_limit apply_limit_flag limit df).

(** [execute_cross_database_query]. *)
Definition execute_cross_database_query (plan : CrossDatabaseExecutionPlan)
  (adapters : list (string * Adapter)) : Result CrossDatabaseQueryResponse AppError :=
  match find (fun sq => negb (contains_key (connection_id sq) adapters))
             (sub_queries plan) with
  | Some sq => Err (Validation ("No adapter found for connection: " ++ connection_id sq))
  | None =>
      let* sub_results := execute_sub_queries_parallel (sub_queries plan) adapters
                            (timeout_secs plan) in
      let* merged_results :=
        match merge_strategy plan with
        | NoMerge =>
            match sub_results with
            | [] => Ok []
            | r0 :: _ => Ok (rows r0)
            end
        | InnerJoin conditions =>
            merge_with_join sub_results conditions (apply_limit plan) (limit_value plan)
        | LeftJoin conditions =>
            merge_with_join sub_results conditions (apply_limit plan) (limit_value plan)
        | UnionMerge all =>
            merge_with_union sub_results all (apply_limit plan) (limit_value plan)
        end in
      let sub_query_executions :=
        map (fun r => {| exec_connection_id := r_connection_id r;
                         exec_database_type := r_database_type r;
                         exec_query := r_query r; exec_row_count := length (rows r) |})
            sub_results in
      Ok (response_new (original_query plan) sub_query_executions merged_results
                       (apply_limit plan))
  end.

End Executor.
End Executor.

(** ** Example inputs of the translator and the executor *)
Module ExecExamples.
Import Json Arrow Model Executor Dialect.

(** A MySQL translator whose parser accepts the two texts below, as
    sqlparser's [GenericDialect] does. *)
Definition mysql_example_sql : string :=
  "SELECT " ++ dquote ++ "id" ++ dquote ++ " FROM " ++ dquote ++ "users" ++ dquote
  ++ " WHERE created_at >= CURRENT_DATE - INTERVAL '7 days'".
Definition mysql_two_days_sql : string :=
  "SELECT * FROM orders WHERE order_date >= CURRENT_DATE - INTERVAL '2 days'".
Definition mysql_examples : MySQLDialectTranslator :=
  {| mysql_parse_sql := fun sql =>
       if String.eqb sql mysql_example_sql || String.eqb sql mysql_two_days_sql
       then Ok 1 else Err "sql parser error" |}.

Definition row_id (n : Z) : Value := Obj [("id", Num (PosInt n))].

(** An adapter answering every query with the given rows. *)
Definition fixed_adapter (rs : list Value) : Adapter :=
  {| adapter_database_type := "postgresql"; execute_query := fun _ _ => AdapterRows rs |}.

(** An engine whose merge query yields five rows. *)
Definition five_row_engine (_ : list (string * RecordBatch)) (_ : string)
  : Result (list Value) string :=
  Ok [row_id 1; row_id 2; row_id 3; row_id 4; row_id 5].

Definition sq_on (conn : string) : SubQuery :=
  {| connection_id := conn; database_type := "unknown"; sq_query := "SELECT * FROM t";
     tables := ["t"]; result_alias := "t" |}.

Definition limited_plan (subs : list SubQuery) (m : MergeStrategy)
  : CrossDatabaseExecutionPlan :=
  {| original_query := "q"; sub_queries := subs; merge_strategy := m;
     timeout_secs := 60; apply_limit := true; limit_value := 1 |}.

End ExecExamples.

(** * Theorems *)

(** ** Further example inputs of the planner *)
Module PlannerExamples.
Import Ast Model Examples.

(** [SELECT * FROM conn1.users EXCEPT SELECT * FROM conn2.users] *)
Definition except_body : SetExpr :=
  SetOperation Except QNone (SelectE (users_of "conn1")) (SelectE (users_of "conn2")).
Definition except_sql : string :=
  "SELECT * FROM conn1.users EXCEPT SELECT * FROM conn2.users".

(** [SELECT * FROM (SELECT * FROM conn1.users) AS s]: a derived table only. *)
Definition derived_select : Select :=
  MkSelect [Wildcard]
    [MkTableWithJoins (Derived (MkQuery (SelectE (users_of "conn1"))) (Some (ident "s"))) []]
    None.
Definition derived_sql : string := "SELECT * FROM (SELECT * FROM conn1.users) AS s".

(** The parser of [Examples], knowing the two texts above as well. *)
Definition parse_sql_more (sql : string) : Result (list Statement) string :=
  if String.eqb sql except_sql then Ok [QueryS (MkQuery except_body)]
  else if String.eqb sql derived_sql then Ok [QueryS (MkQuery (SelectE derived_select))]
  else parse_sql_examples sql.

(** A request with its options set. *)
Definition tuned_request (query : string) (ids : list string) : CrossDatabaseQueryRequest :=
  {| req_query := query; connection_ids := ids; database_aliases := None;
     req_timeout_secs := Some 5; req_apply_limit := Some false; req_limit_value := None |}.

End PlannerExamples.

Module DialectFacts.
Import Dialect ExecExamples.

(** Character-wise form of [translate_identifiers] on text with no single
    quote: every double quote becomes a backtick. *)
Fixpoint swap_double_quotes (s : string) : string :=
  match s with
  | EmptyString => EmptyString
  | String c s' =>
      String (if Ascii.eqb c "034"%char then "`"%char else c) (swap_double_quotes s')
  end.

Fixpoint no_single_quote (s : string) : bool :=
  match s with
  | EmptyString => true
  | String c s' => negb (Ascii.eqb c "'"%char) && no_single_quote s'
  end.

Lemma translate_identifiers_loop_no_quote :
  forall s b, no_single_quote s = true ->
              translate_identifiers_loop false b s = swap_double_quotes s.
Proof.
  induction s as [|c s IH]; intros b H; [reflexivity|].
  simpl in H. apply andb_prop in H as [Hc Hs].
  apply negb_true_iff in Hc.
  simpl. rewrite Hc.
  destruct (Ascii.eqb c "034"%char) eqn:Hq; simpl; rewrite IH by exact Hs; reflexivity.
Qed.

(** C8: the pass-through ([Generic]) translator returns every input
    unchanged, so translating its own output again gives the same result. *)
Theorem generic_translate_passthrough :
  forall (t : GenericDialectTranslator) (sql : string),
    translate t sql = Ok sql /\ bind (translate t sql) (translate t) = translate t sql.
Proof. intros t sql; split; reflexivity. Qed.

Lemma sappend_assoc : forall a b c : string, (a ++ b) ++ c = a ++ (b ++ c).
Proof. induction a as [|x a IH]; intros b c; simpl; [reflexivity|]. rewrite IH. reflexivity. Qed.

Lemma slength_append : forall a b, String.length (a ++ b) = String.length a + String.length b.
Proof. induction a as [|x a IH]; intros b; simpl; [reflexivity|]. rewrite IH. reflexivity. Qed.

Lemma prefix_app_iff : forall p s, String.prefix p s = true <-> exists t, s = p ++ t.
Proof.
  induction p as [|a p IH]; intros s; simpl.
  - split; [intros _; exists s; reflexivity | intros _; destruct s; reflexivity].
  - destruct s as [|b s].
    + split; [discriminate|intros [t Ht]; discriminate].
    + cbn [prefix]. destruct (ascii_dec a b) as [<-|Hne].
      * rewrite IH. split; intros [t Ht]; exists t; congruence.
      * split; [discriminate|intros [t Ht]; inversion Ht; congruence].
Qed.

Lemma prefix_self_app : forall p t, String.prefix p (p ++ t) = true.
Proof. intros p t. apply prefix_app_iff. eauto. Qed.

Lemma substring_after : forall p t,
  substring (String.length p) (String.length (p ++ t) - String.length p) (p ++ t) = t.
Proof.
  intros p t. rewrite slength_append.
  replace (String.length p + String.length t - String.length p) with (String.length t) by lia.
  induction p as [|a p IH]; simpl; [|exact IH].
  induction t as [|c t IHt]; simpl; [reflexivity|]. rewrite IHt. reflexivity.
Qed.

(** Rust's [str::replace] for a non-empty pattern, step by step. *)
Section Replace.
Variables pat rep : string.
Hypothesis Hpat : pat <> "".

Lemma replace_fuel_step :
  forall n s,
    replace_fuel (S n) pat rep s
    = if String.prefix pat s
      then rep ++ replace_fuel n pat rep
                   (substring (String.length pat) (String.length s - String.length pat) s)
      else match s with
           | EmptyString => EmptyString
           | String c s' => String c (replace_fuel n pat rep s')
           end.
Proof. intros n s. destruct pat as [|c p]; [exfalso; exact (Hpat eq_refl)|reflexivity]. Qed.

Lemma replace_fuel_enough :
  forall n s, String.length s < n -> forall m, n <= m ->
    replace_fuel m pat rep s = replace_fuel n pat rep s.
Proof.
  induction n as [|n IH]; intros s Hs m Hm; [lia|].
  destruct m as [|m]; [lia|].
  rewrite !replace_fuel_step.
  destruct (String.prefix pat s) eqn:Hpre.
  - apply prefix_app_iff in Hpre as [t ->]. rewrite substring_after.
    rewrite (IH t); [reflexivity| |lia].
    rewrite slength_append in Hs. destruct pat as [|c p]; [exfalso; exact (Hpat eq_refl)|].
    simpl in Hs. lia.
  - destruct s as [|c s']; [reflexivity|].
    rewrite (IH s'); [reflexivity| simpl in Hs; lia | lia].
Qed.

Lemma str_replace_fuel :
  forall n s, String.length s < n -> replace_fuel n pat rep s = str_replace pat rep s.
Proof.
  intros n s H. unfold str_replace.
  rewrite (replace_fuel_enough (S (String.length s)) s ltac:(lia) n H). reflexivity.
Qed.

Lemma prefix_pat_empty : String.prefix pat "" = false.
Proof. destruct pat as [|c p]; [exfalso; exact (Hpat eq_refl)|reflexivity]. Qed.

Lemma pat_length_pos : 0 < String.length pat.
Proof. destruct pat as [|c p]; [exfalso; exact (Hpat eq_refl)|simpl; lia]. Qed.

Lemma str_replace_empty : str_replace pat rep "" = "".
Proof. unfold str_replace. rewrite replace_fuel_step, prefix_pat_empty. reflexivity. Qed.

Lemma str_replace_match :
  forall t, str_replace pat rep (pat ++ t) = rep ++ str_replace pat rep t.
Proof.
  intros t. unfold str_replace at 1. rewrite replace_fuel_step, prefix_self_app, substring_after.
  rewrite str_replace_fuel; [reflexivity|].
  rewrite slength_append. pose proof pat_length_pos. lia.
Qed.

Lemma str_replace_skip :
  forall c s, String.prefix pat (String c s) = false ->
    str_replace pat rep (String c s) = String c (str_replace pat rep s).
Proof.
  intros c s H. unfold str_replace at 1. rewrite replace_fuel_step, H.
  rewrite str_replace_fuel; [reflexivity|simpl; lia].
Qed.

Lemma str_replace_absent :
  forall s, contains s pat = false -> str_replace pat rep s = s.
Proof.
  induction s as [|c s IH]; intros H.
  - apply str_replace_empty.
  - change (contains (String c s) pat)
      with (if String.prefix pat (String c s) then true else contains s pat) in H.
    destruct (String.prefix pat (String c s)) eqn:Hp; [discriminate|].
    rewrite str_replace_skip by exact Hp. rewrite IH by exact H. reflexivity.
Qed.

End Replace.

(** A pattern none of whose proper non-empty suffixes is also a prefix:
    two of its occurrences never overlap. *)
Definition borderless (pat : string) : bool :=
  forallb (fun k => negb (String.prefix (substring k (String.length pat - k) pat) pat))
          (seq 1 (String.length pat - 1)).

Lemma borderless_spec :
  forall pat a r, borderless pat = true -> pat = a ++ r -> a <> "" -> r <> "" ->
    String.prefix r pat = false.
Proof.
  intros pat a r Hb Hp Ha Hr. unfold borderless in Hb. rewrite forallb_forall in Hb.
  assert (Hin : In (String.length a) (seq 1 (String.length pat - 1))).
  { apply in_seq. rewrite Hp, slength_append.
    destruct a as [|x a]; [congruence|]. destruct r as [|y r]; [congruence|]. simpl. lia. }
  specialize (Hb _ Hin). apply negb_true_iff in Hb.
  subst pat. rewrite substring_after in Hb. exact Hb.
Qed.

Lemma prefix_split :
  forall a p x, String.prefix p (a ++ x) = true -> String.prefix p a = false ->
    exists r, p = a ++ r /\ r <> "" /\ String.prefix r x = true.
Proof.
  induction a as [|c a IH]; intros p x H1 H2.
  - exists p. split; [reflexivity|]. split; [|exact H1].
    intros ->. discriminate.
  - destruct p as [|p0 p]; [discriminate|].
    cbn [String.append prefix] in H1, H2.
    destruct (ascii_dec p0 c) as [<-|Hne]; [|discriminate].
    destruct (IH p x H1 H2) as (r & -> & Hr & Hx). exists r. auto.
Qed.

Lemma prefix_app_short :
  forall r p b, String.prefix r (p ++ b) = true -> String.length r <= String.length p ->
    String.prefix r p = true.
Proof.
  induction r as [|c r IH]; intros p b H Hl.
  - destruct p; reflexivity.
  - destruct p as [|c' p]; [simpl in Hl; lia|].
    cbn [String.append prefix] in H |- *.
    destruct (ascii_dec c c'); [|discriminate].
    apply (IH p b H). simpl in Hl. lia.
Qed.

Section Borderless.
Variables pat rep : string.
Hypothesis Hpat : pat <> "".
Hypothesis Hb : borderless pat = true.

Lemma str_replace_split :
  forall n a b, String.length a < n ->
    str_replace pat rep (a ++ pat ++ b)
    = str_replace pat rep a ++ rep ++ str_replace pat rep b.
Proof.
  induction n as [|n IH]; intros a b Hn; [lia|].
  destruct (String.eqb_spec a "") as [->|Ha].
  { cbn [String.append]. rewrite str_replace_match, str_replace_empty by exact Hpat.
    reflexivity. }
  destruct (String.prefix pat a) eqn:Hpa.
  - apply prefix_app_iff in Hpa as [a2 ->].
    rewrite sappend_assoc, !str_replace_match by exact Hpat.
    rewrite IH, sappend_assoc; [reflexivity|].
    rewrite slength_append in Hn. pose proof (pat_length_pos pat Hpat). lia.
  - destruct (String.prefix pat (a ++ pat ++ b)) eqn:H2.
    + exfalso. destruct (prefix_split a pat (pat ++ b) H2 Hpa) as (r & Hp & Hr & Hx).
      assert (Hl : String.length r <= String.length pat)
        by (rewrite Hp, slength_append; lia).
      pose proof (prefix_app_short r pat b Hx Hl) as Hrp.
      rewrite (borderless_spec pat a r Hb Hp Ha Hr) in Hrp. discriminate.
    + destruct a as [|c a']; [congruence|].
      cbn [String.append] in H2 |- *.
      rewrite !str_replace_skip by assumption.
      rewrite IH; [reflexivity|simpl in Hn; lia].
Qed.

(** Every occurrence of a borderless pattern is replaced: on a text cut
    by the pattern into pieces that do not contain it, [str_replace]
    glues the same pieces back with the replacement. *)
Lemma str_replace_join :
  forall parts, Forall (fun p => contains p pat = false) parts ->
    str_replace pat rep (join_strings pat parts) = join_strings rep parts.
Proof.
  induction parts as [|x [|y l] IH]; intros H.
  - apply str_replace_empty. exact Hpat.
  - cbn [join_strings]. inversion H; subst. apply str_replace_absent; assumption.
  - inversion H as [|? ? Hx Hl]; subst.
    change (join_strings pat (x :: y :: l)) with (x ++ pat ++ join_strings pat (y :: l)).
    change (join_strings rep (x :: y :: l)) with (x ++ rep ++ join_strings rep (y :: l)).
    rewrite (str_replace_split (S (String.length x))) by lia.
    rewrite str_replace_absent by assumption. rewrite IH by exact Hl. reflexivity.
Qed.
End Borderless.

(** Whether a character occurs in a text. *)
Fixpoint has_char (c : ascii) (s : string) : bool :=
  match s with
  | EmptyString => false
  | String c' s' => Ascii.eqb c' c || has_char c s'
  end.

(** A piece of SQL text as [translate_identifiers] sees it: a
    single-quoted literal, a double-quoted identifier, or text with no
    quote. *)
Inductive SqlPiece :=
| QuotedText (t : string)
| QuotedIdent (t : string)
| PlainText (t : string).

Definition piece_ok (p : SqlPiece) : bool :=
  match p with
  | QuotedText t => negb (has_char "'"%char t)
  | QuotedIdent t => negb (has_char "034"%char t)
  | PlainText t => negb (has_char "'"%char t) && negb (has_char "034"%char t)
  end.

(** The pieces written with ANSI double-quoted identifiers, and with MySQL
    backtick-quoted identifiers. *)
Definition render_ansi (p : SqlPiece) : string :=
  match p with
  | QuotedText t => "'" ++ t ++ "'"
  | QuotedIdent t => dquote ++ t ++ dquote
  | PlainText t => t
  end.

Definition render_mysql (p : SqlPiece) : string :=
  match p with
  | QuotedText t => "'" ++ t ++ "'"
  | QuotedIdent t => "`" ++ t ++ "`"
  | PlainText t => t
  end.

Definition render_all (render : SqlPiece -> string) (ps : list SqlPiece) : string :=
  fold_right (fun p acc => render p ++ acc) "" ps.

Lemma loop_passes :
  forall t ins ini rest,
    (has_char "'"%char t = false \/ ini = true) ->
    (has_char "034"%char t = false \/ ins = true) ->
    translate_identifiers_loop ins ini (t ++ rest) = t ++ translate_identifiers_loop ins ini rest.
Proof.
  induction t as [|c t IH]; intros ins ini rest Hs Hd; [reflexivity|].
  cbn [has_char] in Hs, Hd.
  assert (Hs' : has_char "'"%char t = false \/ ini = true)
    by (destruct Hs as [Hs | Hs]; [apply orb_false_iff in Hs|]; tauto).
  assert (Hd' : has_char "034"%char t = false \/ ins = true)
    by (destruct Hd as [Hd | Hd]; [apply orb_false_iff in Hd|]; tauto).
  cbn [String.append translate_identifiers_loop].
  destruct (Ascii.eqb c "'"%char) eqn:Hq.
  - destruct Hs as [Hs | ->]; [simpl in Hs; discriminate|]. cbn [negb].
    rewrite IH by assumption. reflexivity.
  - destruct (Ascii.eqb c "034"%char) eqn:Hdq; cbn [andb].
    + destruct Hd as [Hd | ->]; [simpl in Hd; discriminate|]. cbn [negb].
      rewrite IH by assumption. reflexivity.
    + rewrite IH by assumption. reflexivity.
Qed.

Lemma loop_piece :
  forall p rest, piece_ok p = true ->
    translate_identifiers_loop false false (render_ansi p ++ rest)
    = render_mysql p ++ translate_identifiers_loop false false rest.
Proof.
  intros [t|t|t] rest H; cbn [piece_ok] in H.
  - apply negb_true_iff in H. cbn [render_ansi render_mysql String.append].
    cbn [translate_identifiers_loop]. cbn. rewrite !sappend_assoc.
    rewrite (loop_passes t true false) by auto. cbn. reflexivity.
  - apply negb_true_iff in H. unfold render_ansi, render_mysql, dquote.
    cbn [String.append translate_identifiers_loop]. cbn. rewrite !sappend_assoc.
    rewrite (loop_passes t false true) by auto. cbn. reflexivity.
  - apply andb_prop in H as [H1 H2]. apply negb_true_iff in H1, H2.
    cbn [render_ansi render_mysql]. apply loop_passes; auto.
Qed.

(** On SQL made of single-quoted literals (which may hold double quotes),
    double-quoted identifiers (which may hold single quotes) and text
    with no quote, [translate_identifiers] turns the double quotes around
    each identifier into backticks and changes nothing else. *)
Lemma translate_identifiers_pieces :
  forall ps, forallb piece_ok ps = true ->
    translate_identifiers (render_all render_ansi ps) = render_all render_mysql ps.
Proof.
  unfold translate_identifiers. induction ps as [|p ps IH]; intros H; [reflexivity|].
  cbn [forallb] in H. apply andb_prop in H as [Hp Hps].
  cbn [render_all fold_right]. rewrite loop_piece by exact Hp.
  f_equal. exact (IH Hps).
Qed.

(** The literal rewrites of [translate_interval] and of
    [translate_date_functions], in the order the code applies them. *)
Definition interval_rewrites : list (string * string) :=
  [("INTERVAL '1 day'", "INTERVAL 1 DAY"); ("INTERVAL '7 days'", "INTERVAL 7 DAY");
   ("INTERVAL '30 days'", "INTERVAL 30 DAY"); ("INTERVAL '1 hour'", "INTERVAL 1 HOUR");
   ("INTERVAL '1 month'", "INTERVAL 1 MONTH"); ("INTERVAL '1 year'", "INTERVAL 1 YEAR")].

Definition date_rewrites : list (string * string) :=
  [("CURRENT_DATE", "CURDATE()"); ("CURRENT_TIMESTAMP", "NOW()")].

Definition apply_rewrites (rws : list (string * string)) (sql : string) : string :=
  fold_left (fun acc '(pat, rep) => str_replace pat rep acc) rws sql.

Lemma apply_rewrites_absent :
  forall rws sql,
    Forall (fun '(pat, _) => pat <> "" /\ contains sql pat = false) rws ->
    apply_rewrites rws sql = sql.
Proof.
  unfold apply_rewrites. induction rws as [|[pat rep] rws IH]; intros sql H; [reflexivity|].
  inversion H as [|? ? Hx Hrest]; subst. cbn in Hx. destruct Hx as [Hp Hc]. cbn [fold_left].
  rewrite str_replace_absent by assumption. exact (IH sql Hrest).
Qed.

(** C7 (as stated): an [INTERVAL '<n> <unit>'] literal outside the six the
    translator lists, here [INTERVAL '2 days'], is not rewritten. *)
Lemma mysql_interval_not_general :
  translate mysql_examples mysql_two_days_sql
  = Ok "SELECT * FROM orders WHERE order_date >= CURDATE() - INTERVAL '2 days'"
  /\ contains "SELECT * FROM orders WHERE order_date >= CURDATE() - INTERVAL '2 days'"
              "INTERVAL 2 DAY" = false.
Proof. split; vm_compute; reflexivity. Qed.

(** C7 (amended): on SQL its parser accepts, the MySQL translator returns
    [translate_date_functions (translate_interval (translate_identifiers sql))].
    [translate_identifiers] turns every double quote into a backtick in text
    with no single quote, and, on SQL made of single-quoted literals (which
    may hold double quotes), double-quoted identifiers (which may hold
    single quotes) and text with no quote, it turns the double quotes around
    each identifier into backticks and changes nothing else.
    [translate_interval] and [translate_date_functions] apply, in order, the
    six rewrites of [interval_rewrites] and the two of [date_rewrites]; each
    rewrite replaces every occurrence of its literal (on a text cut by the
    literal into pieces that do not contain it, the pieces are glued back
    with the replacement), and a text containing none of the six INTERVAL
    literals is left unchanged by [translate_interval], so an [INTERVAL
    '<n> <unit>'] literal outside them stays as written.  The spec's example
    becomes [SELECT `id` FROM `users` WHERE created_at >= CURDATE() -
    INTERVAL 7 DAY]. *)
Theorem mysql_translate_rewrites :
  forall (t : MySQLDialectTranslator) (n : nat),
    mysql_parse_sql t mysql_example_sql = Ok (S n) ->
    translate t mysql_example_sql
      = Ok "SELECT `id` FROM `users` WHERE created_at >= CURDATE() - INTERVAL 7 DAY"
    /\ (forall sql m, mysql_parse_sql t sql = Ok (S m) ->
          translate t sql
          = Ok (translate_date_functions (translate_interval (translate_identifiers sql))))
    /\ (forall sql, no_single_quote sql = true ->
          translate_identifiers sql = swap_double_quotes sql)
    /\ (forall ps, forallb piece_ok ps = true ->
          translate_identifiers (render_all render_ansi ps) = render_all render_mysql ps)
    /\ (forall sql, translate_interval sql = apply_rewrites interval_rewrites sql
                    /\ translate_date_functions sql = apply_rewrites date_rewrites sql)
    /\ Forall (fun '(pat, rep) =>
          forall parts, Forall (fun p => contains p pat = false) parts ->
            str_replace pat rep (join_strings pat parts) = join_strings rep parts)
         (interval_rewrites ++ date_rewrites)
    /\ (forall sql, Forall (fun '(pat, _) => contains sql pat = false) interval_rewrites ->
          translate_interval sql = sql).
Proof.
  intros t n He. split; [|split; [|split; [|split; [|split; [|split]]]]].
  - simpl. unfold mysql_translate. rewrite He. vm_compute. reflexivity.
  - intros sql m Hp. simpl. unfold mysql_translate. rewrite Hp. reflexivity.
  - intros sql H. apply translate_identifiers_loop_no_quote. exact H.
  - exact translate_identifiers_pieces.
  - intros sql. split; reflexivity.
  - apply Forall_forall. intros [pat rep] Hin parts Hparts.
    apply str_replace_join; [| |exact Hparts];
      cbn in Hin; repeat destruct Hin as [Hin|Hin]; try contradiction;
      inversion Hin; subst; solve [discriminate | vm_compute; reflexivity].
  - intros sql H. change (translate_interval sql) with (apply_rewrites interval_rewrites sql).
    apply apply_rewrites_absent. rewrite Forall_forall in H |- *.
    intros [pat rep] Hin. split; [|exact (H (pat, rep) Hin)].
    cbn in Hin; repeat destruct Hin as [Hin|Hin]; try contradiction;
      inversion Hin; subst; discriminate.
Qed.

Lemma mysql_translate_rewrites_witness :
  mysql_parse_sql mysql_examples mysql_example_sql = Ok 1
  /\ translate mysql_examples mysql_example_sql
     = Ok "SELECT `id` FROM `users` WHERE created_at >= CURDATE() - INTERVAL 7 DAY"
  /\ translate_identifiers
       (render_all render_ansi
          [PlainText "SELECT "; QuotedIdent "it's"; PlainText " FROM t WHERE a = ";
           QuotedText ("say " ++ dquote ++ "hi" ++ dquote)])
     = render_all render_mysql
         [PlainText "SELECT "; QuotedIdent "it's"; PlainText " FROM t WHERE a = ";
          QuotedText ("say " ++ dquote ++ "hi" ++ dquote)]
  /\ translate_interval mysql_two_days_sql = mysql_two_days_sql.
Proof.
  assert (Hp : mysql_parse_sql mysql_examples mysql_example_sql = Ok 1)
    by (vm_compute; reflexivity).
  destruct (mysql_translate_rewrites mysql_examples 0 Hp) as (H1 & _ & _ & H4 & _ & _ & H7).
  split; [exact Hp|]. split; [exact H1|]. split.
  - apply H4. vm_compute. reflexivity.
  - apply H7. repeat (apply Forall_cons; [vm_compute; reflexivity|]). apply Forall_nil.
Defined.

End DialectFacts.

Module ExecutorFacts.
Import Json Arrow Model Executor ExecExamples.

Lemma find_none_of_forallb {A} (p : A -> bool) (l : list A) :
  forallb p l = true -> find (fun x => negb (p x)) l = None.
Proof.
  induction l as [|x l IH]; simpl; [reflexivity|].
  intros H. apply andb_prop in H as [Hx Hl]. rewrite Hx. simpl. apply IH, Hl.
Qed.

(** What the merge step of a strategy yields before the row limit. *)
Definition merge_frame
  (df_sql : list (string * RecordBatch) -> string -> Result (list Value) string)
  (m : MergeStrategy) (subs : list SubQueryResult) : option (Result (list Value) AppError) :=
  match m with
  | NoMerge => None
  | InnerJoin cs | LeftJoin cs => Some (join_frame df_sql subs cs)
  | UnionMerge all => Some (union_frame df_sql subs all)
  end.

(** C10: with [MergeStrategy::None] the sole sub-query's rows are returned
    untruncated whatever [apply_limit] and [limit_value] are, and
    [limit_applied] is the plan's [apply_limit]. *)
Theorem none_strategy_rows_untruncated :
  forall df_sql plan adapters sq ad rs,
    merge_strategy plan = NoMerge ->
    sub_queries plan = [sq] ->
    map_get (connection_id sq) adapters = Some ad ->
    execute_query ad (sq_query sq) (timeout_secs plan) = AdapterRows rs ->
    exists resp,
      execute_cross_database_query df_sql plan adapters = Ok resp
      /\ merged_rows resp = rs
      /\ limit_applied resp = apply_limit plan.
Proof.
  intros df_sql plan adapters sq ad rs Hm Hs Ha Hq.
  assert (Hx : execute_sub_queries_parallel [sq] adapters (timeout_secs plan)
               = Ok [{| r_connection_id := connection_id sq;
                        r_database_type := adapter_database_type ad;
                        r_query := sq_query sq; rows := rs |}]).
  { simpl. rewrite Ha, Hq. reflexivity. }
  unfold execute_cross_database_query. rewrite Hs.
  cbv [find]. unfold contains_key. rewrite Ha. simpl negb. cbv iota.
  rewrite Hx. simpl bind. rewrite Hm.
  eexists; split; [reflexivity|]. split; reflexivity.
Qed.

Lemma none_strategy_rows_untruncated_witness :
  exists resp,
    execute_cross_database_query five_row_engine
      (limited_plan [sq_on "c1"] NoMerge)
      [("c1", fixed_adapter [row_id 1; row_id 2; row_id 3])] = Ok resp
    /\ merged_rows resp = [row_id 1; row_id 2; row_id 3]
    /\ limit_applied resp = true.
Proof.
  apply (none_strategy_rows_untruncated five_row_engine
           (limited_plan [sq_on "c1"] NoMerge)
           [("c1", fixed_adapter [row_id 1; row_id 2; row_id 3])]
           (sq_on "c1") (fixed_adapter [row_id 1; row_id 2; row_id 3])
           [row_id 1; row_id 2; row_id 3]); reflexivity.
Defined.

(** C5: with [apply_limit = true] and [limit_value = 1], a join or union
    merge whose query yields 5 rows gives exactly 1 merged row, and the
    response reports [limit_applied = true]. *)
Theorem merge_limit_one_of_five :
  forall df_sql plan adapters subs pre,
    apply_limit plan = true ->
    limit_value plan = 1 ->
    forallb (fun sq => contains_key (connection_id sq) adapters) (sub_queries plan) = true ->
    execute_sub_queries_parallel (sub_queries plan) adapters (timeout_secs plan) = Ok subs ->
    merge_frame df_sql (merge_strategy plan) subs = Some (Ok pre) ->
    length pre = 5 ->
    exists resp,
      execute_cross_database_query df_sql plan adapters = Ok resp
      /\ length (merged_rows resp) = 1
      /\ limit_applied resp = true.
Proof.
  intros df_sql plan adapters subs pre Hal Hlv Hadp Hexec Hm Hlen.
  unfold execute_cross_database_query.
  rewrite (find_none_of_forallb _ _ Hadp), Hexec. simpl.
  destruct (merge_strategy plan) as [|cs|cs|all]; simpl in Hm; try discriminate;
    injection Hm as Hm;
    unfold merge_with_join, merge_with_union; rewrite Hm; simpl; rewrite Hal, Hlv;
    eexists; (split; [reflexivity|]); simpl;
    (split; [|reflexivity]);
    destruct pre as [|r pre]; simpl in *; try discriminate; reflexivity.
Qed.

Lemma merge_limit_one_of_five_witness :
  exists resp,
    execute_cross_database_query five_row_engine
      (limited_plan [sq_on "c1"; sq_on "c2"] (InnerJoin []))
      [("c1", fixed_adapter [row_id 1]); ("c2", fixed_adapter [row_id 2])] = Ok resp
    /\ length (merged_rows resp) = 1
    /\ limit_applied resp = true.
Proof.
  apply (merge_limit_one_of_five five_row_engine
           (limited_plan [sq_on "c1"; sq_on "c2"] (InnerJoin []))
           [("c1", fixed_adapter [row_id 1]); ("c2", fixed_adapter [row_id 2])]
           [{| r_connection_id := "c1"; r_database_type := "postgresql";
               r_query := "SELECT * FROM t"; rows := [row_id 1] |};
            {| r_connection_id := "c2"; r_database_type := "postgresql";
               r_query := "SELECT * FROM t"; rows := [row_id 2] |}]
           [row_id 1; row_id 2; row_id 3; row_id 4; row_id 5]);
    vm_compute; reflexivity.
Defined.

End ExecutorFacts.

Module ColumnarFacts.
Import Json Arrow Columnar.

Definition field_of (kv : string * Value) : Field :=
  {| field_name := fst kv; data_type := infer_type (snd kv); nullable := true |}.

Definition array_of (rows : list Value) (kv : string * Value) : Array :=
  build_array rows (fst kv) (infer_type (snd kv)).

Lemma arrays_by_key : forall rows obj,
  map (fun '(f, column_name) => build_array rows column_name (data_type f))
      (combine (map (fun '(key, value) =>
                       {| field_name := key; data_type := infer_type value;
                          nullable := true |}) obj) (map fst obj))
  = map (array_of rows) obj.
Proof.
  intros rows obj. induction obj as [|[k v] obj IH]; simpl; [reflexivity|].
  rewrite IH. reflexivity.
Qed.

Lemma fields_by_key : forall obj,
  map (fun '(key, value) =>
         {| field_name := key; data_type := infer_type value; nullable := true |}) obj
  = map field_of obj.
Proof. induction obj as [|[k v] obj IH]; simpl; [reflexivity|]. rewrite IH. reflexivity. Qed.

Lemma combine_map_same {A B C} (f : A -> B) (g : A -> C) (l : list A) :
  combine (map f l) (map g l) = map (fun x => (f x, g x)) l.
Proof. induction l as [|x l IH]; simpl; [reflexivity|]. rewrite IH. reflexivity. Qed.

Lemma build_array_len : forall rows k dt, array_len (build_array rows k dt) = length rows.
Proof. intros rows k dt. destruct dt; simpl; apply length_map. Qed.

Lemma build_array_type : forall rows k dt,
  data_type_eqb dt Boolean = false ->
  data_type_eqb dt (array_data_type (build_array rows k dt)) = true.
Proof. intros rows k dt H. destruct dt; simpl in *; congruence. Qed.

Lemma build_array_cell : forall rows k dt j row,
  nth_error rows j = Some row ->
  match build_array rows k dt with
  | Int64Array cs => option_map CInt (nth_error cs j)
  | Float64Array cs => option_map CFloat (nth_error cs j)
  | StringArray cs => option_map CStr (nth_error cs j)
  | StrShown cs => option_map CShown (nth_error cs j)
  end = Some (expected_cell dt (get k row)).
Proof.
  intros rows k dt j row H.
  destruct dt; simpl; rewrite nth_error_map, H; reflexivity.
Qed.

(** C3 (amended): a row set whose first row is not a JSON object is
    rejected; otherwise, when the first row has at least one key and no
    boolean value, the conversion succeeds with one nullable column per key
    of the first row, typed from the first row's value ([infer_type]: Int64
    for an i64 integer, Float64 for a float, Utf8 for anything else), and
    each row's cell is its value for that key read with [as_i64], [as_f64]
    or [as_str]: a null, a missing key or a value of another shape is the
    null bit. *)
Theorem json_to_record_batch_columns :
  (forall v rest, as_object v = None ->
     json_to_record_batch (v :: rest) = Err (Database "Expected JSON object"))
  /\ (forall obj rest,
        obj <> [] ->
        forallb (fun kv => negb (data_type_eqb (infer_type (snd kv)) Boolean)) obj = true ->
        exists b,
          json_to_record_batch (Obj obj :: rest) = Ok b
          /\ schema b = map field_of obj
          /\ (forall c j k v row,
                nth_error obj c = Some (k, v) ->
                nth_error (Obj obj :: rest) j = Some row ->
                cell b c j = Some (expected_cell (infer_type v) (get k row)))).
Proof.
  split.
  - intros v rest H. simpl. rewrite H. reflexivity.
  - intros obj rest Hne Hnb.
    exists {| schema := map field_of obj; columns := map (array_of (Obj obj :: rest)) obj |}.
    split; [|split; [reflexivity|]].
    + unfold json_to_record_batch. cbn [as_object]. cbv beta iota zeta.
      rewrite arrays_by_key, fields_by_key.
      unfold try_new.
      destruct obj as [|kv0 obj']; [congruence|].
      set (rows := Obj (kv0 :: obj') :: rest).
      assert (Ht : forallb (fun '(f, a) => data_type_eqb (data_type f) (array_data_type a))
                     (map (fun x => (field_of x, array_of rows x)) (kv0 :: obj')) = true).
      { apply forallb_forall. intros x Hx.
        apply in_map_iff in Hx as [kv [Hx Hin]]. subst x.
        apply (proj1 (forallb_forall _ _) Hnb) in Hin.
        apply negb_true_iff in Hin. unfold field_of, array_of. simpl.
        apply build_array_type. exact Hin. }
      assert (Hl : forallb (fun a => Nat.eqb (array_len a) (array_len (array_of rows kv0)))
                     (map (array_of rows) (kv0 :: obj')) = true).
      { apply forallb_forall. intros a Hin.
        apply in_map_iff in Hin as [kv [Ha _]]. subst a.
        unfold array_of. rewrite !build_array_len. apply Nat.eqb_refl. }
      cbn [map combine length] in Ht, Hl |- *. cbv beta iota.
      rewrite !length_map, Nat.eqb_refl. cbn [negb].
      rewrite combine_map_same, Ht, Hl. reflexivity.
    + intros c j k v row Hc Hj. unfold cell. simpl.
      rewrite nth_error_map, Hc. simpl. unfold array_of. simpl.
      apply build_array_cell. exact Hj.
Qed.

Lemma json_to_record_batch_columns_witness :
  exists b,
    json_to_record_batch [Obj [("id", Num (PosInt 1)); ("name", Str "A")];
                          Obj [("id", Null); ("name", Str "B")]] = Ok b
    /\ schema b = map field_of [("id", Num (PosInt 1)); ("name", Str "A")]
    /\ (forall c j k v row,
          nth_error [("id", Num (PosInt 1)); ("name", Str "A")] c = Some (k, v) ->
          nth_error [Obj [("id", Num (PosInt 1)); ("name", Str "A")];
                     Obj [("id", Null); ("name", Str "B")]] j = Some row ->
          cell b c j = Some (expected_cell (infer_type v) (get k row))).
Proof.
  apply (proj2 json_to_record_batch_columns); [discriminate | reflexivity].
Defined.

(** C3 (as stated): a nested object under a first-row key does not get a
    string representation but the null bit; an integer in a later row under
    a column typed Utf8 by the first row becomes the null bit, not a 64-bit
    integer; a first row that is not an object makes the conversion fail. *)
Lemma json_to_record_batch_not_lenient :
  json_to_record_batch [Obj [("a", Obj [("b", Num (PosInt 1))])]]
    = Ok {| schema := [{| field_name := "a"; data_type := Utf8; nullable := true |}];
            columns := [StringArray [None]] |}
  /\ json_to_record_batch [Obj [("a", Str "x")]; Obj [("a", Num (PosInt 5))]]
    = Ok {| schema := [{| field_name := "a"; data_type := Utf8; nullable := true |}];
            columns := [StringArray [Some "x"; None]] |}
  /\ json_to_record_batch [Str "x"] = Err (Database "Expected JSON object").
Proof. split; [|split]; reflexivity. Qed.

End ColumnarFacts.

Module PlannerFacts.
Import Ast Model Planner Examples.

Lemma display_arms :
  display_select (users_of "conn1") = arm1_sql /\ display_select (users_of "conn2") = arm2_sql.
Proof. split; reflexivity. Qed.





(** Unfolds the planner on a UNION request down to the parser calls on the
    arms, and rewrites them with the hypotheses on the parser. *)
Ltac unfold_union_plan Hv Hq H1 H2 :=
  unfold plan_query; rewrite Hv; cbv [map_err bind];
  cbn [req_query request_new]; rewrite Hq;
  cbv [plan_select_query plan_union_query union_sub_queries strip_qualifiers
       extract_union_selects extract_set_operation_selects union_body bind app];
  rewrite (proj1 display_arms), (proj2 display_arms), H1, H2.

(** C2 (code_bug): a UNION of two single-table SELECTs on [conn1] and
    [conn2] is planned as 2 sub-queries merged with [Union{all: true}],
    whether the query says [UNION] or [UNION ALL]. *)
Theorem union_plan_all_flag :
  forall parse_sql cmap m0 m1 m2 m3,
    two_connections cmap ->
    parse_sql union_sql = Ok (QueryS (MkQuery (union_body QNone)) :: m0) ->
    parse_sql union_all_sql = Ok (QueryS (MkQuery (union_body QAll)) :: m1) ->
    parse_sql arm1_sql = Ok (QueryS (MkQuery (SelectE (users_of "conn1"))) :: m2) ->
    parse_sql arm2_sql = Ok (QueryS (MkQuery (SelectE (users_of "conn2"))) :: m3) ->
    exists p p_all,
      plan_query parse_sql cmap (request_new union_sql ["conn1"; "conn2"]) = Ok p
      /\ plan_query parse_sql cmap (request_new union_all_sql ["conn1"; "conn2"]) = Ok p_all
      /\ length (sub_queries p) = 2
      /\ merge_strategy p = UnionMerge true
      /\ length (sub_queries p_all) = 2
      /\ merge_strategy p_all = UnionMerge true.
Proof.
  intros parse_sql cmap m0 m1 m2 m3 Hc Hu Hua H1 H2.
  assert (Hv : validate (request_new union_sql ["conn1"; "conn2"]) = Ok tt) by reflexivity.
  assert (Hva : validate (request_new union_all_sql ["conn1"; "conn2"]) = Ok tt)
    by reflexivity.
  destruct Hc as [-> | ->]; do 2 eexists;
    (split; [unfold_union_plan Hv Hu H1 H2; reflexivity|]);
    (split; [unfold_union_plan Hva Hua H1 H2; reflexivity|]);
    repeat split.
Qed.

Lemma union_plan_all_flag_witness :
  exists p p_all,
    plan_query parse_sql_examples [("conn1", "conn1"); ("conn2", "conn2")]
      (request_new union_sql ["conn1"; "conn2"]) = Ok p
    /\ plan_query parse_sql_examples [("conn1", "conn1"); ("conn2", "conn2")]
         (request_new union_all_sql ["conn1"; "conn2"]) = Ok p_all
    /\ length (sub_queries p) = 2
    /\ merge_strategy p = UnionMerge true
    /\ length (sub_queries p_all) = 2
    /\ merge_strategy p_all = UnionMerge true.
Proof.
  apply (union_plan_all_flag parse_sql_examples _ [] [] [] []);
    [left; reflexivity | vm_compute; reflexivity .. ].
Defined.

(** C4: an unqualified single-table SELECT, planned with a non-empty map
    whose first entry (in the map's iteration order) is [(k, v)], gives one
    sub-query on connection [v] and [MergeStrategy::None]. *)
Theorem unqualified_table_first_connection :
  forall parse_sql k v rest r proj t alias sel more,
    validate r = Ok tt ->
    parse_sql (req_query r)
      = Ok (QueryS (MkQuery (SelectE (MkSelect proj [MkTableWithJoins (Table [t] alias) []]
                                                sel))) :: more) ->
    exists p sq,
      plan_query parse_sql ((k, v) :: rest) r = Ok p
      /\ sub_queries p = [sq]
      /\ connection_id sq = v
      /\ merge_strategy p = NoMerge.
Proof.
  intros parse_sql k v rest r proj t alias sel more Hv Hp.
  assert (Hg : map_get k ((k, v) :: rest) = Some v).
  { cbn [map_get]. rewrite String.eqb_refl. reflexivity. }
  assert (Hs : exists stripped,
             strip_qualifiers parse_sql ((k, v) :: rest) (req_query r) = Ok stripped).
  { unfold strip_qualifiers. rewrite Hp. eexists. reflexivity. }
  destruct Hs as [stripped Hs].
  unfold plan_query. rewrite Hv. cbv [map_err bind]. rewrite Hp.
  unfold plan_select_query. cbv [extract_tables table_factors select_from flat_map map app].
  cbn [extract_tables_from parse_table_name map]. cbv [bind].
  match goal with
  | |- context [identify_databases ?c ?l] =>
      replace (identify_databases c l) with (Ok (T := list (string * list string))
                                                (E := AppError) [(v, [ident_to_string t])])
        by (unfold identify_databases; cbn [identify_databases_acc]; rewrite Hg; reflexivity)
  end.
  cbn [length Nat.eqb].
  unfold plan_single_database_query. rewrite Hg, Hs. cbv [bind].
  do 2 eexists. split; [reflexivity|]. repeat split.
Qed.

Lemma unqualified_table_first_connection_witness :
  exists p sq,
    plan_query parse_sql_examples [("conn2", "conn2"); ("conn1", "conn1")]
      (request_new bare_users_sql ["conn1"; "conn2"]) = Ok p
    /\ sub_queries p = [sq] /\ connection_id sq = "conn2" /\ merge_strategy p = NoMerge.
Proof.
  apply (unqualified_table_first_connection parse_sql_examples "conn2" "conn2"
           [("conn1", "conn1")] (request_new bare_users_sql ["conn1"; "conn2"]) [Wildcard] (ident "users") None None []);
    vm_compute; reflexivity.
Defined.

Lemma entry_push_not_nil : forall c t d, entry_push c t d <> [].
Proof.
  intros c t [|[c' ts] d]; simpl; [discriminate|].
  destruct (String.eqb c c'); discriminate.
Qed.

Lemma identify_databases_acc_not_nil :
  forall cmap ts d d', identify_databases_acc cmap ts d = Ok d' -> d <> [] -> d' <> [].
Proof.
  intros cmap ts. induction ts as [|[[q a] t] ts IH]; intros d d' H Hd; simpl in H.
  - inversion H; subst; assumption.
  - destruct (map_get q cmap) as [c|]; [|discriminate].
    eapply IH; [exact H|]. apply entry_push_not_nil.
Qed.

Lemma identify_databases_not_nil :
  forall cmap ts d, ts <> [] -> identify_databases cmap ts = Ok d -> d <> [].
Proof.
  intros cmap [|[[q a] t] ts] d Hts H; [congruence|].
  unfold identify_databases in H. cbn [identify_databases_acc] in H.
  destruct (map_get q cmap) as [c|]; [|discriminate].
  eapply identify_databases_acc_not_nil; [exact H|]. apply entry_push_not_nil.
Qed.

Lemma plan_single_shape :
  forall parse_sql cmap ts r p,
    plan_single_database_query parse_sql cmap ts r = Ok p ->
    merge_strategy p = NoMerge /\ length (sub_queries p) = 1.
Proof.
  intros parse_sql cmap ts r p H. unfold plan_single_database_query in H.
  destruct ts as [|[[q a] t] ts]; [discriminate|].
  destruct (map_get q cmap); [|discriminate].
  destruct (strip_qualifiers parse_sql cmap (req_query r)); cbv [bind] in H; [|discriminate].
  inversion H; subst. split; reflexivity.
Qed.

Lemma plan_join_shape :
  forall cmap s ts r p d,
    plan_join_query cmap s ts r = Ok p ->
    identify_databases cmap ts = Ok d ->
    (exists cs, merge_strategy p = InnerJoin cs) /\ length (sub_queries p) = length d.
Proof.
  intros cmap s ts r p d H Hd. unfold plan_join_query in H. rewrite Hd in H.
  cbv [bind] in H. inversion H; subst. simpl. split.
  - destruct (extract_join_conditions s ts); eexists; reflexivity.
  - apply length_map.
Qed.

Lemma plan_union_shape :
  forall parse_sql cmap q r op p,
    plan_union_query parse_sql cmap q r op = Ok p -> exists a, merge_strategy p = UnionMerge a.
Proof.
  intros parse_sql cmap q r op p H. unfold plan_union_query in H.
  destruct (extract_union_selects q) as [sels|]; cbv [bind] in H; [|discriminate].
  destruct sels; [discriminate|].
  destruct (union_sub_queries parse_sql cmap 0 (s :: sels)) as [subs|]; [|discriminate].
  destruct subs; inversion H; subst. eexists; reflexivity.
Qed.

(** C9: every plan [plan_query] returns has a merge strategy that fits its
    sub-queries: a join strategy ([InnerJoin] or [LeftJoin]) comes with at
    least two sub-queries, [MergeStrategy::None] with exactly one. *)
Theorem plan_strategy_fits_sub_queries :
  forall parse_sql cmap r p,
    plan_query parse_sql cmap r = Ok p ->
    (forall cs, merge_strategy p = InnerJoin cs \/ merge_strategy p = LeftJoin cs ->
                2 <= length (sub_queries p))
    /\ (merge_strategy p = NoMerge -> length (sub_queries p) = 1).
Proof.
  intros parse_sql cmap r p H.
  unfold plan_query in H.
  destruct (validate r); cbv [map_err bind] in H; [|discriminate].
  destruct (parse_sql (req_query r)) as [stmts|]; [|discriminate].
  destruct stmts as [|[q|] more]; try discriminate.
  unfold plan_select_query in H.
  destruct q as [b]. destruct b as [s|op quant lhs rhs|q'|]; try discriminate.
  - destruct (extract_tables cmap s) as [ts|] eqn:Ets; cbv [bind] in H; [|discriminate].
    destruct ts as [|tr ts']; [discriminate|].
    destruct (identify_databases cmap (tr :: ts')) as [d|] eqn:Ed; [|discriminate].
    destruct (Nat.eqb (length d) 1) eqn:El.
    + destruct (plan_single_shape _ _ _ _ _ H) as [Hm Hl].
      rewrite Hm, Hl. split.
      * intros cs [Hc|Hc]; discriminate.
      * reflexivity.
    + destruct (plan_join_shape _ _ _ _ _ _ H Ed) as [[cs Hm] Hl].
      pose proof (identify_databases_not_nil cmap (tr :: ts') d ltac:(discriminate) Ed) as Hd.
      rewrite Hm. split.
      * intros _ _. rewrite Hl. destruct d as [|x [|y d]]; [congruence| |simpl; lia].
        simpl in El. discriminate.
      * discriminate.
  - destruct (plan_union_shape _ _ _ _ _ _ H) as [a Hm]. rewrite Hm. split.
    + intros cs [Hc|Hc]; discriminate.
    + discriminate.
Qed.

Lemma plan_strategy_fits_sub_queries_witness :
  exists p, plan_query parse_sql_examples [("conn1", "conn1"); ("conn2", "conn2")]
              (request_new join_sql ["conn1"; "conn2"]) = Ok p
            /\ 2 <= length (sub_queries p).
Proof.
  eexists. split; [vm_compute; reflexivity|].
  refine (proj1 (plan_strategy_fits_sub_queries parse_sql_examples
                   [("conn1", "conn1"); ("conn2", "conn2")]
                   (request_new join_sql ["conn1"; "conn2"]) _ _) _ _).
  - vm_compute. reflexivity.
  - left. vm_compute. reflexivity.
Defined.

Lemma extract_set_operation_selects_leaves :
  forall b, extract_set_operation_selects b = map display_select (select_leaves b).
Proof.
  fix IH 1. intros b. destruct b as [s|op quant l r|[b']|]; simpl.
  - reflexivity.
  - rewrite IH, IH, map_app. reflexivity.
  - apply IH.
  - reflexivity.
Qed.

Lemma contains_key_map_get :
  forall {V} k (m : list (string * V)),
    contains_key k m = true -> exists v, map_get k m = Some v.
Proof.
  unfold contains_key. intros V k m H. destruct (map_get k m); [eauto|discriminate].
Qed.

Lemma parse_table_name_known :
  forall cmap name q t, parse_table_name cmap name = Ok (q, t) -> contains_key q cmap = true.
Proof.
  intros cmap name q t H. unfold parse_table_name in H.
  destruct (map ident_to_string name) as [|t1 [|t2 [|t3 ps]]]; try discriminate.
  - destruct cmap as [|[k v] cmap']; inversion H; subst.
    unfold contains_key. cbn [map_get]. rewrite String.eqb_refl. reflexivity.
  - destruct (contains_key t1 cmap) eqn:Hc; simpl in H; inversion H; subst. exact Hc.
Qed.

Lemma parse_table_name_short_error :
  forall cmap name e,
    length name = 1 \/ length name = 2 ->
    parse_table_name cmap name = Err e -> exists m, e = Validation m.
Proof.
  intros cmap name e Hlen H. unfold parse_table_name in H.
  rewrite <- (length_map ident_to_string) in Hlen.
  destruct (map ident_to_string name) as [|t1 [|t2 [|t3 ps]]];
    simpl in Hlen; try lia.
  - destruct cmap as [|[k v] cmap']; inversion H; eauto.
  - destruct (contains_key t1 cmap); simpl in H; inversion H; eauto.
Qed.

Definition short_names (fs : list TableFactor) : Prop :=
  forall name alias, In (Table name alias) fs -> length name = 1 \/ length name = 2.

Lemma short_names_tail : forall f fs, short_names (f :: fs) -> short_names fs.
Proof. intros f fs H name alias Hin. apply (H name alias). right. exact Hin. Qed.

Lemma extract_tables_from_short :
  forall cmap fs,
    short_names fs ->
    match extract_tables_from cmap fs with
    | Ok ts => forall q a t, In (q, a, t) ts -> contains_key q cmap = true
    | Err e => exists m, e = Validation m
    end.
Proof.
  intros cmap fs. induction fs as [|f fs IH]; intros Hs; simpl.
  - intros q a t [].
  - pose proof (IH (short_names_tail _ _ Hs)) as IH'.
    destruct f as [name alias|q' alias]; [|exact IH'].
    destruct (parse_table_name cmap name) as [[q t]|e] eqn:Hp.
    + cbv [bind]. destruct (extract_tables_from cmap fs) as [ts|e]; [|exact IH'].
      intros q0 a0 t0 [Heq|Hin].
      * inversion Heq; subst. eapply parse_table_name_known. exact Hp.
      * eapply IH'. exact Hin.
    + eapply parse_table_name_short_error; [|exact Hp].
      apply (Hs name alias). left. reflexivity.
Qed.

Lemma extract_tables_from_unknown :
  forall cmap fs qi t a,
    short_names fs ->
    In (Table [qi; t] a) fs ->
    contains_key (ident_to_string qi) cmap = false ->
    exists m, extract_tables_from cmap fs = Err (Validation m).
Proof.
  intros cmap fs qi t a. induction fs as [|f fs IH]; intros Hs Hin Hc; [destruct Hin|].
  pose proof (extract_tables_from_short cmap fs (short_names_tail _ _ Hs)) as Hts.
  simpl. destruct Hin as [->|Hin].
  - unfold parse_table_name at 1. cbn [map]. rewrite Hc. simpl. eauto.
  - destruct f as [name alias|q' alias].
    + destruct (parse_table_name cmap name) as [[q t']|e] eqn:Hp.
      * destruct (IH (short_names_tail _ _ Hs) Hin Hc) as [m Hm].
        rewrite Hm. cbv [bind]. eauto.
      * destruct (parse_table_name_short_error cmap name e) as [m ->];
          [apply (Hs name alias); left; reflexivity|exact Hp|eauto].
    + exact (IH (short_names_tail _ _ Hs) Hin Hc).
Qed.

Lemma union_sub_queries_unknown :
  forall parse_sql cmap ss idx,
    (forall s, In s ss ->
       exists tl, parse_sql (display_select s) = Ok (QueryS (MkQuery (SelectE s)) :: tl)) ->
    (forall s, In s ss -> short_names (table_factors s)) ->
    (exists s qi t a, In s ss /\ In (Table [qi; t] a) (table_factors s)
                      /\ contains_key (ident_to_string qi) cmap = false) ->
    exists m, union_sub_queries parse_sql cmap idx (map display_select ss)
              = Err (Validation m).
Proof.
  intros parse_sql cmap ss. induction ss as [|s ss IH]; intros idx Hp Hs Hu.
  { destruct Hu as (s & qi & t & a & [] & _). }
  assert (IH' : exists m, union_sub_queries parse_sql cmap (S idx) (map display_select ss)
                          = Err (Validation m)
                \/ extract_tables cmap s = Err (Validation m)).
  { destruct (extract_tables cmap s) as [ts|e] eqn:Ets.
    - destruct Hu as (s' & qi & t & a & [->|Hin] & Hf & Hc).
      + destruct (extract_tables_from_unknown cmap (table_factors s') qi t a
                    (Hs s' (or_introl eq_refl)) Hf Hc) as [m Hm].
        unfold extract_tables in Ets. congruence.
      + destruct (IH (S idx)) as [m Hm].
        * intros s0 H0. apply Hp. right. exact H0.
        * intros s0 H0. apply Hs. right. exact H0.
        * exists s', qi, t, a. auto.
        * exists m. left. exact Hm.
    - pose proof (extract_tables_from_short cmap (table_factors s)
                    (Hs s (or_introl eq_refl))) as He.
      unfold extract_tables in Ets. rewrite Ets in He. destruct He as [m ->].
      exists m. right. reflexivity. }
  destruct (Hp s (or_introl eq_refl)) as [tl Hps].
  destruct IH' as [m [Hm|Ee]].
  - cbn [map union_sub_queries]. rewrite Hps. cbv [bind].
    destruct (extract_tables cmap s) as [ts|e] eqn:Ets.
    + pose proof (extract_tables_from_short cmap (table_factors s)
                    (Hs s (or_introl eq_refl))) as He.
      unfold extract_tables in Ets. rewrite Ets in He.
      destruct ts as [|[[q a] t] ts]; [eauto|].
      destruct (contains_key_map_get q cmap (He q a t (or_introl eq_refl))) as [c Hc].
      rewrite Hc.
      assert (Hst : exists stripped,
                 strip_qualifiers parse_sql cmap (display_select s) = Ok stripped).
      { unfold strip_qualifiers. rewrite Hps. eexists. reflexivity. }
      destruct Hst as [stripped Hst]. rewrite Hst, Hm. eauto.
    + pose proof (extract_tables_from_short cmap (table_factors s)
                    (Hs s (or_introl eq_refl))) as He.
      unfold extract_tables in Ets. rewrite Ets in He. destruct He as [m' ->]. eauto.
  - cbn [map union_sub_queries]. rewrite Hps. cbv [bind]. rewrite Ee. eauto.
Qed.

Lemma extract_tables_from_known :
  forall cmap fs ts,
    extract_tables_from cmap fs = Ok ts ->
    forall q a t, In (q, a, t) ts -> contains_key q cmap = true.
Proof.
  intros cmap fs. induction fs as [|f fs IH]; intros ts H; simpl in H.
  - inversion H; subst. intros q a t [].
  - destruct f as [name alias|sq alias]; [|exact (IH ts H)].
    destruct (parse_table_name cmap name) as [[q0 t0]|e] eqn:Hp; [|discriminate].
    destruct (extract_tables_from cmap fs) as [ts'|e] eqn:Ets; cbv [bind] in H;
      [|discriminate].
    inversion H; subst. intros q a t [Heq|Hin].
    + inversion Heq; subst. eapply parse_table_name_known. exact Hp.
    + exact (IH ts' eq_refl q a t Hin).
Qed.

Lemma entry_push_keys :
  forall c t d x, In x (map fst (entry_push c t d)) <-> c = x \/ In x (map fst d).
Proof.
  intros c t d x. induction d as [|[c' ts] d IH]; simpl.
  - tauto.
  - destruct (String.eqb c c') eqn:E; simpl.
    + apply String.eqb_eq in E. subst c'. intuition congruence.
    + rewrite IH. tauto.
Qed.

Lemma entry_push_nodup :
  forall c t d, NoDup (map fst d) -> NoDup (map fst (entry_push c t d)).
Proof.
  intros c t d. induction d as [|[c' ts] d IH]; intros Hd; simpl.
  - constructor; [intros []|constructor].
  - inversion Hd as [|? ? Hn Hd']; subst.
    destruct (String.eqb c c') eqn:E; simpl; [exact Hd|].
    constructor; [|exact (IH Hd')].
    rewrite entry_push_keys. intros [Heq|Hin]; [|contradiction].
    subst c'. rewrite String.eqb_refl in E. discriminate.
Qed.

Lemma entry_push_count :
  forall c t d,
    length (concat (map snd (entry_push c t d))) = S (length (concat (map snd d))).
Proof.
  intros c t d. induction d as [|[c' ts] d IH]; simpl; [reflexivity|].
  destruct (String.eqb c c'); simpl; rewrite !length_app; [simpl; lia|rewrite IH; lia].
Qed.

Lemma identify_databases_acc_known :
  forall cmap ts d,
    (forall q a t, In (q, a, t) ts -> contains_key q cmap = true) ->
    NoDup (map fst d) ->
    exists d', identify_databases_acc cmap ts d = Ok d'
               /\ NoDup (map fst d')
               /\ length (concat (map snd d')) = length ts + length (concat (map snd d)).
Proof.
  intros cmap ts. induction ts as [|[[q a] t] ts IH]; intros d Hk Hd; simpl.
  - exists d. auto.
  - destruct (contains_key_map_get q cmap (Hk q a t (or_introl eq_refl))) as [c Hc].
    rewrite Hc.
    destruct (IH (entry_push c t d)) as (d' & H1 & H2 & H3).
    + intros q' a' t' Hin. apply (Hk q' a' t'). right. exact Hin.
    + apply entry_push_nodup. exact Hd.
    + exists d'. rewrite entry_push_count in H3. split; [exact H1|]. split; [exact H2|lia].
Qed.

Lemma extract_tables_from_derived :
  forall cmap fs,
    (forall f, In f fs -> exists q a, f = Derived q a) -> extract_tables_from cmap fs = Ok [].
Proof.
  intros cmap fs. induction fs as [|f fs IH]; intros H; simpl; [reflexivity|].
  destruct (H f (or_introl eq_refl)) as (q & a & ->).
  apply IH. intros f' Hf. apply H. right. exact Hf.
Qed.

(** C6 (counterexample): a qualifier that only occurs inside a subquery of
    the [WHERE] clause is never checked; with only [conn1] in the map,
    [SELECT * FROM conn1.users WHERE id IN (SELECT id FROM unknown.t)] is
    planned without any error. *)
Lemma nested_unknown_qualifier_planned :
  contains_key "unknown" [("conn1", "conn1")] = false
  /\ exists p, plan_query parse_sql_examples [("conn1", "conn1")]
                 (request_new nested_unknown_sql ["conn1"]) = Ok p
               /\ merge_strategy p = NoMerge.
Proof.
  split; [reflexivity|]. eexists. split; vm_compute; reflexivity.
Qed.

(** A query whose resolved [SELECT]s hold a table with an unknown
    qualifier is refused with a [Validation] error. *)
Lemma unknown_qualifier_error_top :
  forall parse_sql cmap r q more,
    validate r = Ok tt ->
    parse_sql (req_query r) = Ok (QueryS q :: more) ->
    (forall s, In s (top_selects q) -> short_names (table_factors s)) ->
    (exists s qi t a, In s (top_selects q) /\ In (Table [qi; t] a) (table_factors s)
                      /\ contains_key (ident_to_string qi) cmap = false) ->
    (is_set_query q = true -> forall s, In s (top_selects q) ->
       exists tl, parse_sql (display_select s) = Ok (QueryS (MkQuery (SelectE s)) :: tl)) ->
    exists m, plan_query parse_sql cmap r = Err (Validation m).
Proof.
  intros parse_sql cmap r q more Hv Hp Hs Hu Hr.
  unfold plan_query. rewrite Hv. cbv [map_err bind]. rewrite Hp.
  unfold plan_select_query.
  destruct q as [b]. destruct b as [s|op quant lhs rhs|q'|];
    [| |destruct Hu as (s0 & qi & t & a & [] & _)..].
  - destruct Hu as (s' & qi & t & a & [->|[]] & Hf & Hc).
    destruct (extract_tables_from_unknown cmap (table_factors s') qi t a
                (Hs s' (or_introl eq_refl)) Hf Hc) as [m Hm].
    unfold extract_tables. rewrite Hm. cbv [bind]. eauto.
  - unfold plan_union_query, extract_union_selects.
    rewrite extract_set_operation_selects_leaves.
    set (b := SetOperation op quant lhs rhs) in *.
    destruct (union_sub_queries_unknown parse_sql cmap (select_leaves b) 0
                (Hr eq_refl) Hs Hu) as [m Hm].
    destruct (select_leaves b) as [|s ss] eqn:Hl.
    + cbn [map union_sub_queries] in Hm. discriminate.
    + cbn [map] in Hm |- *. cbv [bind]. rewrite Hm. eauto.
Qed.

(** A table name [parse_table_name] accepts: one part with a non-empty
    map, or two parts whose qualifier is a key of the map. *)
Definition known_name (cmap : list (string * string)) (name : list Ident) : bool :=
  match map ident_to_string name with
  | [_] => match cmap with [] => false | _ => true end
  | [q; _] => contains_key q cmap
  | _ => false
  end.

Lemma extract_tables_from_known_names :
  forall cmap fs,
    (forall name alias, In (Table name alias) fs -> known_name cmap name = true) ->
    exists ts, extract_tables_from cmap fs = Ok ts
               /\ (ts = [] -> forall f, In f fs -> exists q a, f = Derived q a).
Proof.
  intros cmap fs. induction fs as [|f fs IH]; intros H; simpl.
  - exists []. split; [reflexivity|]. intros _ f [].
  - destruct IH as (ts & Hts & Hd).
    { intros name alias Hin. apply (H name alias). right. exact Hin. }
    destruct f as [name alias|sq alias].
    + assert (Hk := H name alias (or_introl eq_refl)). unfold known_name in Hk.
      unfold parse_table_name.
      destruct (map ident_to_string name) as [|t1 [|t2 [|t3 ps]]]; try discriminate.
      * destruct cmap as [|[k v] cmap']; [discriminate|].
        rewrite Hts. cbv [bind]. eexists. split; [reflexivity|]. discriminate.
      * rewrite Hk. cbn [negb]. rewrite Hts. cbv [bind].
        eexists. split; [reflexivity|]. discriminate.
    + exists ts. split; [exact Hts|]. intros Hnil f [<-|Hin]; [eauto|]. exact (Hd Hnil f Hin).
Qed.

(** A plain [SELECT] whose own [FROM]/[JOIN] tables all have accepted
    names is never refused with a [Validation] error, whatever qualifiers
    its subqueries use: it is planned, or refused with [InvalidSql] when
    its [FROM] holds only derived tables. *)
Lemma known_top_tables_no_validation_error :
  forall parse_sql cmap r s more,
    validate r = Ok tt ->
    parse_sql (req_query r) = Ok (QueryS (MkQuery (SelectE s)) :: more) ->
    (forall name alias, In (Table name alias) (table_factors s) ->
       known_name cmap name = true) ->
    (exists p, plan_query parse_sql cmap r = Ok p)
    \/ (plan_query parse_sql cmap r = Err (InvalidSql "No tables found in query")
        /\ forall f, In f (table_factors s) -> exists q a, f = Derived q a).
Proof.
  intros parse_sql cmap r s more Hv Hp Hk.
  destruct (extract_tables_from_known_names cmap _ Hk) as (ts & Hts & Hd).
  unfold plan_query. rewrite Hv. cbv [map_err bind]. rewrite Hp.
  unfold plan_select_query, extract_tables. rewrite Hts. cbv [bind].
  destruct ts as [|[[q a] t] ts'].
  - right. split; [reflexivity|]. exact (Hd eq_refl).
  - left. pose proof (extract_tables_from_known cmap _ _ Hts) as Hkn.
    destruct (identify_databases_acc_known cmap ((q, a, t) :: ts') [] Hkn (NoDup_nil _))
      as (d & Hid & _ & _).
    assert (Hid' : identify_databases cmap ((q, a, t) :: ts' : list TableRef) = Ok d)
      by exact Hid.
    unfold TableRef. rewrite Hid'.
    destruct (Nat.eqb (length d) 1).
    + unfold plan_single_database_query.
      destruct (contains_key_map_get q cmap (Hkn q a t (or_introl eq_refl))) as [c Hc].
      rewrite Hc. unfold strip_qualifiers. rewrite Hp. cbv [bind]. eexists. reflexivity.
    + unfold plan_join_query. rewrite Hid'. cbv [bind].
      eexists. reflexivity.
Qed.

(** C6 (amended): for a query that is a plain [SELECT] or a set operation,
    if every [FROM]/[JOIN] table name has one or two parts and some such
    table of a resolved [SELECT] has a qualifier missing from the map, then
    [plan_query] returns a [Validation] error (for a set operation, given
    that the parser reads each arm's [Display] back as that arm).  The
    planner is a pure function: it performs no I/O.  Conversely, qualifiers
    are only checked on those top-level tables: a plain [SELECT] whose own
    tables all have accepted names never gets a [Validation] error, whatever
    its subqueries ([WHERE], [IN], derived tables) refer to; it is planned,
    or refused with [InvalidSql "No tables found in query"] when its [FROM]
    holds only derived tables. *)
Theorem top_level_qualifiers_checked :
  (forall parse_sql cmap r q more,
    validate r = Ok tt ->
    parse_sql (req_query r) = Ok (QueryS q :: more) ->
    (forall s, In s (top_selects q) -> short_names (table_factors s)) ->
    (exists s qi t a, In s (top_selects q) /\ In (Table [qi; t] a) (table_factors s)
                      /\ contains_key (ident_to_string qi) cmap = false) ->
    (is_set_query q = true -> forall s, In s (top_selects q) ->
       exists tl, parse_sql (display_select s) = Ok (QueryS (MkQuery (SelectE s)) :: tl)) ->
    exists m, plan_query parse_sql cmap r = Err (Validation m))
  /\ (forall parse_sql cmap r s more,
    validate r = Ok tt ->
    parse_sql (req_query r) = Ok (QueryS (MkQuery (SelectE s)) :: more) ->
    (forall name alias, In (Table name alias) (table_factors s) ->
       known_name cmap name = true) ->
    (exists p, plan_query parse_sql cmap r = Ok p)
    \/ (plan_query parse_sql cmap r = Err (InvalidSql "No tables found in query")
        /\ forall f, In f (table_factors s) -> exists q a, f = Derived q a)).
Proof.
  split; [exact unknown_qualifier_error_top | exact known_top_tables_no_validation_error].
Qed.

Lemma top_level_qualifiers_checked_witness :
  ((exists m, plan_query parse_sql_examples [("conn1", "conn1"); ("conn2", "conn2")]
               (request_new union_unknown_sql ["conn1"; "conn2"]) = Err (Validation m))
  /\ (exists m, plan_query parse_sql_examples [("conn1", "conn1")]
                  (request_new (display_select (users_of "unknown")) ["conn1"])
                = Err (Validation m)))
  /\ ((exists p, plan_query parse_sql_examples [("conn1", "conn1")]
                   (request_new nested_unknown_sql ["conn1"]) = Ok p)
      \/ (plan_query parse_sql_examples [("conn1", "conn1")]
             (request_new nested_unknown_sql ["conn1"])
           = Err (InvalidSql "No tables found in query")
          /\ forall f, In f (table_factors nested_unknown_select) ->
                exists q a, f = Derived q a)).
Proof.
  split; [split|].
  - apply (proj1 top_level_qualifiers_checked parse_sql_examples
             [("conn1", "conn1"); ("conn2", "conn2")]
             (request_new union_unknown_sql ["conn1"; "conn2"])
             (MkQuery union_unknown_body) []).
    + vm_compute. reflexivity.
    + vm_compute. reflexivity.
    + intros s Hin name alias Hf. vm_compute in Hin.
      destruct Hin as [<-|[<-|[]]]; vm_compute in Hf;
        destruct Hf as [Hf|[]]; inversion Hf; subst; right; reflexivity.
    + exists (users_of "unknown"), (ident "unknown"), (ident "users"), None.
      split; [right; left; reflexivity|]. split; [left; reflexivity|]. reflexivity.
    + intros _ s Hin. vm_compute in Hin.
      destruct Hin as [<-|[<-|[]]]; eexists; vm_compute; reflexivity.
  - apply (proj1 top_level_qualifiers_checked parse_sql_examples [("conn1", "conn1")]
             (request_new (display_select (users_of "unknown")) ["conn1"])
             (MkQuery (SelectE (users_of "unknown"))) []).
    + vm_compute. reflexivity.
    + vm_compute. reflexivity.
    + intros s Hin name alias Hf. destruct Hin as [<-|[]]. vm_compute in Hf.
      destruct Hf as [Hf|[]]. inversion Hf; subst. right. reflexivity.
    + exists (users_of "unknown"), (ident "unknown"), (ident "users"), None.
      split; [left; reflexivity|]. split; [left; reflexivity|]. reflexivity.
    + intros Hf. discriminate.
  - apply (proj2 top_level_qualifiers_checked parse_sql_examples [("conn1", "conn1")]
             (request_new nested_unknown_sql ["conn1"]) nested_unknown_select []).
    + vm_compute. reflexivity.
    + vm_compute. reflexivity.
    + intros name alias Hf. vm_compute in Hf.
      destruct Hf as [Hf|[]]. inversion Hf; subst. reflexivity.
Defined.

End PlannerFacts.

(** ** Further properties of the planner *)
Module PlannerExtras.
Import Ast Model Planner Examples PlannerExamples PlannerFacts.

Lemma map_get_insert_same : forall {V} k (v : V) m, map_get k (map_insert k v m) = Some v.
Proof.
  intros V k v m. induction m as [|[k' v'] m IH]; simpl.
  - rewrite String.eqb_refl. reflexivity.
  - destruct (String.eqb k k') eqn:E; simpl.
    + rewrite String.eqb_refl. reflexivity.
    + rewrite E. exact IH.
Qed.

Lemma map_get_insert_other :
  forall {V} k k' (v : V) m, k <> k' -> map_get k (map_insert k' v m) = map_get k m.
Proof.
  intros V k k' v m Hne. induction m as [|[k0 v0] m IH]; simpl.
  - apply String.eqb_neq in Hne. rewrite Hne. reflexivity.
  - destruct (String.eqb k' k0) eqn:E; simpl.
    + apply String.eqb_eq in E. subst k0.
      apply String.eqb_neq in Hne. rewrite Hne. reflexivity.
    + destruct (String.eqb k k0); [reflexivity|exact IH].
Qed.

Lemma planner_fold_lookup :
  forall ids m k,
    map_get k (fold_left (fun m id => map_insert id id m) ids m)
    = if existsb (String.eqb k) ids then Some k else map_get k m.
Proof.
  induction ids as [|i ids IH]; intros m k; simpl; [reflexivity|].
  rewrite IH. destruct (existsb (String.eqb k) ids) eqn:Ex; [rewrite orb_true_r; reflexivity|].
  rewrite orb_false_r. destruct (String.eqb k i) eqn:E.
  - apply String.eqb_eq in E. subst i. apply map_get_insert_same.
  - apply map_get_insert_other. apply String.eqb_neq. exact E.
Qed.

(** [from_request] on a request without aliases gives the planner of
    [CrossDatabaseQueryPlanner::new]: each of the request's connection IDs is
    a qualifier mapped to itself, and nothing else is a qualifier. *)
Theorem from_request_lookup :
  forall r k,
    database_aliases r = None ->
    map_get k (from_request r)
    = if existsb (String.eqb k) (connection_ids r) then Some k else None.
Proof.
  intros r k H. unfold from_request. rewrite H. unfold planner_new.
  rewrite planner_fold_lookup. destruct (existsb _ _); reflexivity.
Qed.

Lemma from_request_lookup_witness :
  database_aliases (request_new join_sql ["conn1"; "conn2"]) = None
  /\ map_get "conn2" (from_request (request_new join_sql ["conn1"; "conn2"])) = Some "conn2".
Proof.
  split; [reflexivity|].
  rewrite (from_request_lookup (request_new join_sql ["conn1"; "conn2"]) "conn2");
    reflexivity.
Defined.

(** Once [extract_tables] has succeeded, [identify_databases] cannot fail
    (its "Unknown qualifier" error is unreachable from [plan_select_query]):
    it groups the tables under pairwise distinct connection IDs and keeps
    every table, none lost or doubled. *)
Theorem extract_then_identify :
  forall cmap s ts,
    extract_tables cmap s = Ok ts ->
    exists d, identify_databases cmap ts = Ok d
              /\ NoDup (map fst d)
              /\ length (concat (map snd d)) = length ts.
Proof.
  intros cmap s ts H.
  destruct (identify_databases_acc_known cmap ts []) as (d & H1 & H2 & H3).
  - exact (extract_tables_from_known cmap (table_factors s) ts H).
  - constructor.
  - exists d. unfold identify_databases. simpl in H3. rewrite Nat.add_0_r in H3. auto.
Qed.

Lemma extract_then_identify_witness :
  exists d, identify_databases [("conn1", "conn1"); ("conn2", "conn2")]
              [("conn1", Some "u", "users"); ("conn2", Some "t", "todos")] = Ok d
            /\ NoDup (map fst d)
            /\ length (concat (map snd d)) = 2.
Proof.
  apply (extract_then_identify [("conn1", "conn1"); ("conn2", "conn2")] join_select).
  reflexivity.
Defined.

(** Every plan with an [InnerJoin] merge sends at most one sub-query to
    each connection: its sub-queries' connection IDs are pairwise
    distinct. *)
Theorem join_plan_distinct_connections :
  forall parse_sql cmap r p cs,
    plan_query parse_sql cmap r = Ok p ->
    merge_strategy p = InnerJoin cs ->
    NoDup (map connection_id (sub_queries p)).
Proof.
  intros parse_sql cmap r p cs H Hm.
  unfold plan_query in H.
  destruct (validate r); cbv [map_err bind] in H; [|discriminate].
  destruct (parse_sql (req_query r)) as [stmts|]; [|discriminate].
  destruct stmts as [|[q|] more]; try discriminate.
  unfold plan_select_query in H.
  destruct q as [b]. destruct b as [s|op quant lhs rhs|q'|]; try discriminate.
  - destruct (extract_tables cmap s) as [ts|] eqn:Ets; cbv [bind] in H; [|discriminate].
    destruct ts as [|tr ts']; [discriminate|].
    destruct (extract_then_identify cmap s _ Ets) as (d & Ed & Hnd & _).
    rewrite Ed in H.
    destruct (Nat.eqb (length d) 1).
    + destruct (plan_single_shape _ _ _ _ _ H) as [Hn _]. congruence.
    + unfold plan_join_query in H. rewrite Ed in H. cbv [bind] in H.
      inversion H; subst. simpl. rewrite map_map.
      replace (map _ d) with (map fst d); [exact Hnd|].
      apply map_ext. intros [c t]. reflexivity.
  - destruct (plan_union_shape _ _ _ _ _ _ H) as [a Ha]. congruence.
Qed.

Lemma join_plan_distinct_connections_witness :
  exists p, plan_query parse_sql_examples [("conn1", "conn1"); ("conn2", "conn2")]
              (request_new join_sql ["conn1"; "conn2"]) = Ok p
            /\ NoDup (map connection_id (sub_queries p)).
Proof.
  eexists. split; [vm_compute; reflexivity|].
  apply (join_plan_distinct_connections parse_sql_examples
           [("conn1", "conn1"); ("conn2", "conn2")] (request_new join_sql ["conn1"; "conn2"])
           _ []);
    vm_compute; reflexivity.
Defined.

(** [parse_join_expr] agrees with [parse_all_join_conditions]: the
    condition it finds, if any, is the first one the full parse collects. *)
Theorem parse_join_expr_first :
  forall e table_aliases c,
    parse_join_expr e table_aliases = Some c ->
    exists rest, parse_all_join_conditions e table_aliases = c :: rest.
Proof.
  fix IH 1. intros e table_aliases c H.
  destruct e as [i|ids|l op r|e' q neg|txt]; try discriminate.
  destruct op; try discriminate; simpl in H |- *.
  - destruct (extract_table_column l table_aliases) as [[lt lc]|];
      destruct (extract_table_column r table_aliases) as [[rt rc]|]; try discriminate.
    inversion H; subst. exists []. reflexivity.
  - destruct (IH l table_aliases c H) as [rest Hr]. rewrite Hr.
    exists (rest ++ parse_all_join_conditions r table_aliases)%list. reflexivity.
Qed.

Lemma parse_join_expr_first_witness :
  exists rest,
    parse_all_join_conditions
      (BinaryOp (BinaryOp (cid "u" "id") Eq (cid "t" "user_id")) And
                (BinaryOp (cid "u" "org") Eq (cid "t" "org"))) [("users", "u")]
    = {| left_alias := "u"; left_column := "id";
         right_alias := "t"; right_column := "user_id" |} :: rest.
Proof.
  apply (parse_join_expr_first
           (BinaryOp (BinaryOp (cid "u" "id") Eq (cid "t" "user_id")) And
                     (BinaryOp (cid "u" "org") Eq (cid "t" "org"))) [("users", "u")]).
  reflexivity.
Defined.

(** A set-operation query is always merged with [Union]: its [all] flag is
    set exactly for the [UNION] operator, whatever the quantifier, so an
    [EXCEPT] or [INTERSECT] query is merged as a [UNION] (distinct). *)
Theorem set_operation_merge :
  forall parse_sql cmap r p op quant lhs rhs more,
    parse_sql (req_query r) = Ok (QueryS (MkQuery (SetOperation op quant lhs rhs)) :: more) ->
    plan_query parse_sql cmap r = Ok p ->
    merge_strategy p = UnionMerge (match op with Union => true | _ => false end).
Proof.
  intros parse_sql cmap r p op quant lhs rhs more Hp H.
  unfold plan_query in H.
  destruct (validate r); cbv [map_err bind] in H; [|discriminate].
  rewrite Hp in H. unfold plan_select_query, plan_union_query in H.
  destruct (extract_union_selects _) as [sels|]; cbv [bind] in H; [|discriminate].
  destruct sels as [|s0 sels]; [discriminate|].
  destruct (union_sub_queries parse_sql cmap 0 (s0 :: sels)) as [subs|]; [|discriminate].
  destruct subs; inversion H; subst. reflexivity.
Qed.

Lemma set_operation_merge_witness :
  exists p, plan_query parse_sql_more [("conn1", "conn1"); ("conn2", "conn2")]
              (request_new except_sql ["conn1"; "conn2"]) = Ok p
            /\ merge_strategy p = UnionMerge false.
Proof.
  eexists. split; [vm_compute; reflexivity|].
  apply (set_operation_merge parse_sql_more [("conn1", "conn1"); ("conn2", "conn2")]
           (request_new except_sql ["conn1"; "conn2"]) _ Except QNone
           (SelectE (users_of "conn1")) (SelectE (users_of "conn2")) []);
    vm_compute; reflexivity.
Defined.

(** A [SELECT] whose [FROM] and [JOIN] items are all derived tables
    (subqueries) is refused with [InvalidSql "No tables found in query"]:
    derived tables are never planned. *)
Theorem derived_only_no_tables :
  forall parse_sql cmap r s more,
    validate r = Ok tt ->
    parse_sql (req_query r) = Ok (QueryS (MkQuery (SelectE s)) :: more) ->
    (forall f, In f (table_factors s) -> exists q a, f = Derived q a) ->
    plan_query parse_sql cmap r = Err (InvalidSql "No tables found in query").
Proof.
  intros parse_sql cmap r s more Hv Hp Hd.
  unfold plan_query. rewrite Hv. cbv [map_err bind]. rewrite Hp.
  unfold plan_select_query, extract_tables. rewrite (extract_tables_from_derived cmap _ Hd).
  reflexivity.
Qed.

Lemma derived_only_no_tables_witness :
  plan_query parse_sql_more [("conn1", "conn1")] (request_new derived_sql ["conn1"])
  = Err (InvalidSql "No tables found in query").
Proof.
  apply (derived_only_no_tables parse_sql_more [("conn1", "conn1")]
           (request_new derived_sql ["conn1"]) derived_select []).
  - reflexivity.
  - vm_compute. reflexivity.
  - intros f Hf. simpl in Hf. destruct Hf as [<-|[]]. do 2 eexists. reflexivity.
Defined.

Lemma plan_single_of :
  forall parse_sql cmap ts r p,
    plan_single_database_query parse_sql cmap ts r = Ok p ->
    exists subs m, p = plan_of r subs m.
Proof.
  intros parse_sql cmap ts r p H. unfold plan_single_database_query in H.
  destruct ts as [|[[q a] t] ts]; [discriminate|].
  destruct (map_get q cmap); [|discriminate].
  destruct (strip_qualifiers parse_sql cmap (req_query r)); cbv [bind] in H; [|discriminate].
  inversion H; subst. eauto.
Qed.

Lemma plan_join_of :
  forall cmap s ts r p, plan_join_query cmap s ts r = Ok p -> exists subs m, p = plan_of r subs m.
Proof.
  intros cmap s ts r p H. unfold plan_join_query in H.
  destruct (identify_databases cmap ts); cbv [bind] in H; [|discriminate].
  inversion H; subst. eauto.
Qed.

Lemma plan_union_of :
  forall parse_sql cmap q r op p,
    plan_union_query parse_sql cmap q r op = Ok p -> exists subs m, p = plan_of r subs m.
Proof.
  intros parse_sql cmap q r op p H. unfold plan_union_query in H.
  destruct (extract_union_selects q) as [sels|]; cbv [bind] in H; [|discriminate].
  destruct sels as [|s0 sels]; [discriminate|].
  destruct (union_sub_queries parse_sql cmap 0 (s0 :: sels)) as [subs|]; [|discriminate].
  destruct subs; inversion H; subst. eauto.
Qed.

(** Every plan keeps the request's query text and takes its options from
    the request, with the defaults 60 seconds of timeout, the limit applied,
    and a limit of 1000 rows. *)
Theorem plan_options_from_request :
  forall parse_sql cmap r p,
    plan_query parse_sql cmap r = Ok p ->
    original_query p = req_query r
    /\ timeout_secs p = unwrap_or (req_timeout_secs r) 60
    /\ apply_limit p = unwrap_or (req_apply_limit r) true
    /\ limit_value p = unwrap_or (req_limit_value r) 1000.
Proof.
  intros parse_sql cmap r p H.
  assert (Hof : exists subs m, p = plan_of r subs m).
  { unfold plan_query in H.
    destruct (validate r); cbv [map_err bind] in H; [|discriminate].
    destruct (parse_sql (req_query r)) as [stmts|]; [|discriminate].
    destruct stmts as [|[q|] more]; try discriminate.
    unfold plan_select_query in H.
    destruct q as [b]. destruct b as [s|op quant lhs rhs|q'|]; try discriminate.
    - destruct (extract_tables cmap s) as [ts|]; cbv [bind] in H; [|discriminate].
      destruct ts as [|tr ts']; [discriminate|].
      destruct (identify_databases cmap (tr :: ts')) as [d|]; [|discriminate].
      destruct (Nat.eqb (length d) 1).
      + exact (plan_single_of _ _ _ _ _ H).
      + exact (plan_join_of _ _ _ _ _ H).
    - exact (plan_union_of _ _ _ _ _ _ H). }
  destruct Hof as (subs & m & ->). repeat split.
Qed.

Lemma plan_options_from_request_witness :
  exists p, plan_query parse_sql_examples [("conn1", "conn1"); ("conn2", "conn2")]
              (tuned_request join_sql ["conn1"; "conn2"]) = Ok p
            /\ timeout_secs p = 5 /\ apply_limit p = false /\ limit_value p = 1000.
Proof.
  eexists. split; [vm_compute; reflexivity|].
  destruct (plan_options_from_request parse_sql_examples
              [("conn1", "conn1"); ("conn2", "conn2")] (tuned_request join_sql ["conn1"; "conn2"])
              _ ltac:(vm_compute; reflexivity)) as (_ & H1 & H2 & H3).
  rewrite H1, H2, H3. repeat split.
Defined.

End PlannerExtras.

(** ** Further properties of the executor *)
Module ExecutorExtras.
Import Json Arrow Columnar Model Executor ExecExamples.

Lemma nat_to_string_inj : forall a b, nat_to_string a = nat_to_string b -> a = b.
Proof.
  intros a b H. unfold nat_to_string in H.
  apply (f_equal NilEmpty.uint_of_string) in H. rewrite !NilEmpty.usu in H.
  inversion H as [Hu]. exact (DecimalNat.Unsigned.to_uint_inj a b Hu).
Qed.

Lemma table_name_inj :
  forall a b, ("table_" ++ nat_to_string a = "table_" ++ nat_to_string b)%string -> a = b.
Proof.
  intros a b H. simpl in H. repeat (injection H as H). apply nat_to_string_inj. exact H.
Qed.

Lemma execute_sub_queries_spec :
  forall sqs adapters timeout results,
    execute_sub_queries_parallel sqs adapters timeout = Ok results ->
    Forall2 (fun sq r =>
               exists a, map_get (connection_id sq) adapters = Some a
                         /\ execute_query a (sq_query sq) timeout = AdapterRows (rows r)
                         /\ r_connection_id r = connection_id sq
                         /\ r_query r = sq_query sq
                         /\ r_database_type r = adapter_database_type a)
            sqs results.
Proof.
  induction sqs as [|sq sqs IH]; intros adapters timeout results H; simpl in H.
  - inversion H; subst. constructor.
  - destruct (map_get (connection_id sq) adapters) as [a|] eqn:Ha; [|discriminate].
    destruct (execute_query a (sq_query sq) timeout) as [rs|e|] eqn:Hq; try discriminate.
    destruct (execute_sub_queries_parallel sqs adapters timeout) as [rest|e] eqn:Hr;
      cbv [bind] in H; [|discriminate].
    inversion H; subst. constructor.
    + exists a. simpl. repeat split; assumption.
    + exact (IH adapters timeout rest Hr).
Qed.

(** On success, [execute_sub_queries_parallel] gives one result per
    sub-query, in the sub-queries' order: each carries its sub-query's
    connection ID and text, the database type of the adapter found for that
    connection, and the rows that adapter returned for the text. *)
Theorem sub_query_results_match :
  forall sqs adapters timeout results,
    execute_sub_queries_parallel sqs adapters timeout = Ok results ->
    Forall2 (fun sq r =>
               exists a, map_get (connection_id sq) adapters = Some a
                         /\ execute_query a (sq_query sq) timeout = AdapterRows (rows r)
                         /\ r_connection_id r = connection_id sq
                         /\ r_query r = sq_query sq
                         /\ r_database_type r = adapter_database_type a)
            sqs results.
Proof. exact execute_sub_queries_spec. Qed.

Lemma sub_query_results_match_witness :
  Forall2 (fun sq r =>
             exists a, map_get (connection_id sq) [("c1", fixed_adapter [row_id 7])] = Some a
                       /\ execute_query a (sq_query sq) 30 = AdapterRows (rows r)
                       /\ r_connection_id r = connection_id sq
                       /\ r_query r = sq_query sq
                       /\ r_database_type r = adapter_database_type a)
          [sq_on "c1"]
          [{| r_connection_id := "c1"; r_database_type := "postgresql";
              r_query := "SELECT * FROM t"; rows := [row_id 7] |}].
Proof.
  apply (sub_query_results_match [sq_on "c1"] [("c1", fixed_adapter [row_id 7])] 30).
  reflexivity.
Defined.





Lemma register_join_tables_names :
  forall subs idx reg,
    register_join_tables idx subs = Ok reg ->
    (forall n, In n (map fst reg) ->
       exists i r, nth_error subs i = Some r /\ rows r <> []
                   /\ n = ("table_" ++ nat_to_string (idx + i))%string)
    /\ (forall i r, nth_error subs i = Some r -> rows r <> [] ->
          In ("table_" ++ nat_to_string (idx + i))%string (map fst reg)).
Proof.
  induction subs as [|r subs IH]; intros idx reg H; simpl in H.
  - inversion H; subst. split; [intros n []|intros [|i] r' Hi; discriminate].
  - destruct (rows r) as [|v vs] eqn:Hr.
    + destruct (IH (S idx) reg H) as [H1 H2]. split.
      * intros n Hn. destruct (H1 n Hn) as (i & r' & Hi & Hne & ->).
        exists (S i), r'. rewrite Nat.add_succ_r. auto.
      * intros [|i] r' Hi Hne; simpl in Hi.
        -- inversion Hi; subst. congruence.
        -- rewrite Nat.add_succ_r. exact (H2 i r' Hi Hne).
    + destruct (json_to_record_batch (v :: vs)) as [b|e]; cbv [bind] in H; [|discriminate].
      destruct (register_join_tables (S idx) subs) as [rest|e] eqn:Hrest; [|discriminate].
      inversion H; subst. destruct (IH (S idx) rest Hrest) as [H1 H2]. split.
      * intros n [Hn|Hn].
        -- exists 0, r. rewrite Nat.add_0_r, Hr. simpl in Hn. repeat split; [discriminate|auto].
        -- destruct (H1 n Hn) as (i & r' & Hi & Hne & ->).
           exists (S i), r'. rewrite Nat.add_succ_r. auto.
      * intros [|i] r' Hi Hne; simpl in Hi.
        -- inversion Hi; subst. left. rewrite Nat.add_0_r. reflexivity.
        -- right. rewrite Nat.add_succ_r. exact (H2 i r' Hi Hne).
Qed.

(** [merge_with_join] registers sub-result [i] under the name [table_i]
    exactly when it has rows: an empty sub-result leaves a gap in the table
    names the join SQL reads. *)
Theorem join_registers_nonempty :
  forall subs reg i r,
    register_join_tables 0 subs = Ok reg ->
    nth_error subs i = Some r ->
    (In ("table_" ++ nat_to_string i)%string (map fst reg) <-> rows r <> []).
Proof.
  intros subs reg i r H Hi. destruct (register_join_tables_names subs 0 reg H) as [H1 H2].
  split.
  - intros Hn. destruct (H1 _ Hn) as (j & r' & Hj & Hne & Heq).
    apply table_name_inj in Heq. simpl in Heq. subst j. congruence.
  - intros Hne. exact (H2 i r Hi Hne).
Qed.

Lemma join_registers_nonempty_witness :
  register_join_tables 0
    [{| r_connection_id := "c1"; r_database_type := "mysql"; r_query := "q"; rows := [] |};
     {| r_connection_id := "c2"; r_database_type := "mysql"; r_query := "q";
        rows := [row_id 1] |}]
  = Ok [("table_1", {| schema := [{| field_name := "id"; data_type := Int64;
                                     nullable := true |}];
                      columns := [Int64Array [Some 1%Z]] |})]
  /\ ~ In "table_0" ["table_1"].
Proof.
  split; [reflexivity|].
  intros Hn.
  apply (join_registers_nonempty
           [{| r_connection_id := "c1"; r_database_type := "mysql"; r_query := "q";
               rows := [] |};
            {| r_connection_id := "c2"; r_database_type := "mysql"; r_query := "q";
               rows := [row_id 1] |}] _ 0 _ eq_refl eq_refl); [exact Hn|reflexivity].
Defined.

Lemma string_app_nil_r : forall s : string, (s ++ "")%string = s.
Proof. induction s as [|c s IH]; simpl; [reflexivity|rewrite IH; reflexivity]. Qed.

Lemma string_app_assoc :
  forall a b c : string, (a ++ b ++ c)%string = ((a ++ b) ++ c)%string.
Proof. induction a as [|x a IH]; intros b c; simpl; [reflexivity|rewrite IH; reflexivity]. Qed.

Lemma concat_empty_cons :
  forall x l, String.concat "" (x :: l) = (x ++ String.concat "" l)%string.
Proof. intros x [|y l]; simpl; [rewrite string_app_nil_r|]; reflexivity. Qed.

Lemma join_strings_cons :
  forall sep x l,
    join_strings sep (x :: l) = (x ++ String.concat "" (map (fun y => sep ++ y) l))%string.
Proof.
  intros sep x l. revert x. induction l as [|y l IH]; intros x.
  - simpl. rewrite string_app_nil_r. reflexivity.
  - change (join_strings sep (x :: y :: l)) with (x ++ sep ++ join_strings sep (y :: l))%string.
    rewrite IH. cbn [map]. rewrite concat_empty_cons, !string_app_assoc. reflexivity.
Qed.

(** [build_cartesian_product_sql] for [n >= 1] tables selects from
    [table_0, table_1, ..., table_(n-1)], all of them, comma-separated. *)
Theorem cartesian_product_tables :
  forall n, 1 <= n ->
    build_cartesian_product_sql n
    = ("SELECT * FROM " ++ join_strings ", "
         (map (fun i => "table_" ++ nat_to_string i) (seq 0 n)))%string.
Proof.
  intros n Hn. unfold build_cartesian_product_sql.
  destruct n as [|[|m]]; [lia|reflexivity|].
  cbn [Nat.ltb Nat.leb]. replace (S (S m) - 1) with (S m) by lia.
  change (seq 0 (S (S m))) with (0 :: seq 1 (S m)).
  rewrite map_cons, join_strings_cons, map_map. reflexivity.
Qed.

Lemma cartesian_product_tables_witness :
  build_cartesian_product_sql 3 = "SELECT * FROM table_0, table_1, table_2".
Proof. rewrite (cartesian_product_tables 3) by lia. reflexivity. Defined.

(** [build_join_sql] joins only [table_0] and [table_1], on the column
    names of the first condition: further conditions, the aliases and any
    third table do not change the SQL. *)
Theorem join_sql_first_condition_only :
  forall c c' cs cs' n,
    2 <= n ->
    left_column c = left_column c' ->
    right_column c = right_column c' ->
    build_join_sql (c :: cs) n = build_join_sql (c' :: cs') 2.
Proof.
  intros c c' cs cs' n Hn Hl Hr. unfold build_join_sql.
  assert (H : Nat.ltb n 2 = false) by (apply Nat.ltb_ge; exact Hn).
  rewrite H, Hl, Hr. reflexivity.
Qed.

Lemma join_sql_first_condition_only_witness :
  build_join_sql [{| left_alias := "u"; left_column := "id";
                     right_alias := "t"; right_column := "user_id" |};
                  {| left_alias := "u"; left_column := "org";
                     right_alias := "t"; right_column := "org" |}] 3
  = "SELECT * FROM table_0 INNER JOIN table_1 ON table_0.id = table_1.user_id".
Proof.
  rewrite (join_sql_first_condition_only _
             {| left_alias := "x"; left_column := "id";
                right_alias := "y"; right_column := "user_id" |} _ [] 3);
    [reflexivity|lia|reflexivity|reflexivity].
Defined.

Lemma register_union_tables_ok :
  forall subs idx,
    (forall r, In r subs -> exists b, json_to_record_batch (rows r) = Ok b) ->
    exists reg, register_union_tables idx subs = Ok reg
                /\ map fst reg = map (fun i => "temp_table_" ++ nat_to_string i)%string
                                     (seq idx (length subs)).
Proof.
  induction subs as [|r subs IH]; intros idx H; simpl.
  - exists []. auto.
  - destruct (H r (or_introl eq_refl)) as [b Hb]. rewrite Hb. cbv [bind].
    destruct (IH (S idx)) as (reg & H1 & H2).
    + intros r' Hr'. apply H. right. exact Hr'.
    + rewrite H1. cbv [bind].
      exists ((("temp_table_" ++ nat_to_string idx)%string, b) :: reg).
      split; [reflexivity|]. simpl. rewrite H2. reflexivity.
Qed.

(** When every sub-result converts to a record batch, [merge_with_union]
    registers them as [temp_table_0 .. temp_table_(n-1)] in order and runs
    exactly [SELECT * FROM temp_table_0 UNION [ALL] SELECT * FROM
    temp_table_1 ...] over them, one arm per sub-result. *)
Theorem union_query_text :
  forall df_sql subs all,
    (forall r, In r subs -> exists b, json_to_record_batch (rows r) = Ok b) ->
    exists reg,
      register_union_tables 0 subs = Ok reg
      /\ map fst reg = map (fun i => "temp_table_" ++ nat_to_string i)%string
                           (seq 0 (length subs))
      /\ union_frame df_sql subs all
         = map_err (fun e => Database ("Failed to execute UNION: " ++ e))
             (df_sql reg
                (join_strings (if all then " UNION ALL " else " UNION ")
                   (map (fun i => "SELECT * FROM temp_table_" ++ nat_to_string i)%string
                        (seq 0 (length subs))))).
Proof.
  intros df_sql subs all H.
  destruct (register_union_tables_ok subs 0 H) as (reg & H1 & H2).
  exists reg. split; [exact H1|]. split; [exact H2|].
  unfold union_frame. rewrite H1. cbv [bind].
  replace (map (fun '(table_name, _) => ("SELECT * FROM " ++ table_name)%string) reg)
    with (map (fun n => ("SELECT * FROM " ++ n)%string) (map fst reg)).
  - rewrite H2, map_map. reflexivity.
  - rewrite map_map. apply map_ext. intros [n b]. reflexivity.
Qed.

Lemma union_query_text_witness :
  exists reg,
    register_union_tables 0
      [{| r_connection_id := "c1"; r_database_type := "mysql"; r_query := "q";
          rows := [row_id 1] |};
       {| r_connection_id := "c2"; r_database_type := "mysql"; r_query := "q";
          rows := [row_id 2] |}] = Ok reg
    /\ map fst reg = ["temp_table_0"; "temp_table_1"]
    /\ union_frame (fun _ q => Ok [Str q])
         [{| r_connection_id := "c1"; r_database_type := "mysql"; r_query := "q";
             rows := [row_id 1] |};
          {| r_connection_id := "c2"; r_database_type := "mysql"; r_query := "q";
             rows := [row_id 2] |}] false
       = Ok [Str "SELECT * FROM temp_table_0 UNION SELECT * FROM temp_table_1"].
Proof.
  apply (union_query_text (fun _ q => Ok [Str q])).
  intros r [<-|[<-|[]]]; eexists; reflexivity.
Defined.

(** A successful [execute_cross_database_query] reports one execution per
    sub-query of the plan, in the plan's order: its connection ID and query
    text are the sub-query's, its database type is that of the adapter
    registered for the connection, and its row count is the number of rows
    that adapter returned for the query within the plan's timeout. *)
Theorem response_reports_sub_queries :
  forall df_sql plan adapters resp,
    execute_cross_database_query df_sql plan adapters = Ok resp ->
    Forall2 (fun sq e =>
               exec_connection_id e = connection_id sq
               /\ exec_query e = sq_query sq
               /\ exists a rs, map_get (connection_id sq) adapters = Some a
                                /\ exec_database_type e = adapter_database_type a
                                /\ execute_query a (sq_query sq) (timeout_secs plan)
                                   = AdapterRows rs
                                /\ exec_row_count e = length rs)
            (sub_queries plan) (resp_sub_queries resp).
Proof.
  intros df_sql plan adapters resp H. unfold execute_cross_database_query in H.
  destruct (find _ (sub_queries plan)); [discriminate|].
  destruct (execute_sub_queries_parallel (sub_queries plan) adapters (timeout_secs plan))
    as [subs|e] eqn:Hs; cbv [bind] in H; [|discriminate].
  apply execute_sub_queries_spec in Hs.
  destruct (match merge_strategy plan with
            | NoMerge => _ | InnerJoin _ => _ | LeftJoin _ => _ | UnionMerge _ => _ end)
    as [merged|e]; [|discriminate].
  inversion H; subst resp. cbn [resp_sub_queries response_new].
  clear H. induction Hs as [|sq r sqs rs (a & Ha & Hq & Hc & Hqr & Hd) _ IH]; constructor; auto.
  split; [exact Hc|split; [exact Hqr|]]. exists a, (rows r). auto.
Qed.

Lemma response_reports_sub_queries_witness :
  exists resp,
    execute_cross_database_query five_row_engine (limited_plan [sq_on "c1"] NoMerge)
      [("c1", fixed_adapter [row_id 1; row_id 2])] = Ok resp
    /\ Forall2 (fun sq e =>
                 exec_connection_id e = connection_id sq
                 /\ exec_query e = sq_query sq
                 /\ exists a rs, map_get (connection_id sq) [("c1", fixed_adapter [row_id 1; row_id 2])]
                                  = Some a
                                  /\ exec_database_type e = adapter_database_type a
                                  /\ execute_query a (sq_query sq) 60 = AdapterRows rs
                                  /\ exec_row_count e = length rs)
              [sq_on "c1"] (resp_sub_queries resp).
Proof.
  eexists. split; [reflexivity|].
  exact (response_reports_sub_queries five_row_engine (limited_plan [sq_on "c1"] NoMerge)
           [("c1", fixed_adapter [row_id 1; row_id 2])] _ eq_refl).
Defined.

End ExecutorExtras.

(** ** Reading record batches back as JSON rows *)
Module ColumnarExtras.
Import Json Arrow Columnar ColumnarFacts.

(** The JSON value [record_batches_to_json] gives back for a row's value
    [v] (or its absence) under a column of type [dt] built by
    [json_to_record_batch]. *)
Definition json_cell (dt : DataType) (v : option Value) : Value :=
  match dt with
  | Int64 => match opt_bind v as_i64 with Some i => value_from_i64 i | None => Null end
  | Float64 => match opt_bind v as_f64 with Some f => value_from_f64 f | None => Null end
  | Utf8 => match opt_bind v as_str with Some s => Str s | None => Null end
  | Boolean => Null
  end.

Lemma contains_key_insert :
  forall {V} k k' (v : V) m,
    contains_key k (map_insert k' v m) = String.eqb k k' || contains_key k m.
Proof.
  intros V k k' v m. unfold contains_key.
  destruct (String.eqb_spec k k') as [->|Hne].
  - rewrite PlannerExtras.map_get_insert_same. reflexivity.
  - rewrite PlannerExtras.map_get_insert_other by exact Hne. reflexivity.
Qed.

Lemma map_get_not_in :
  forall {V} k (l : list (string * V)), ~ In k (map fst l) -> map_get k l = None.
Proof.
  intros V k l. induction l as [|[k' v'] l IH]; intros Hn; simpl; [reflexivity|].
  destruct (String.eqb_spec k k') as [->|Hne].
  - exfalso. apply Hn. left. reflexivity.
  - apply IH. intros Hin. apply Hn. right. exact Hin.
Qed.

Lemma fold_insert_lookup :
  forall (g : string * Value -> Value) l acc k,
    NoDup (map fst l) ->
    map_get k (fold_left (fun m kv => map_insert (fst kv) (g kv) m) l acc)
    = match map_get k l with Some v => Some (g (k, v)) | None => map_get k acc end.
Proof.
  intros g l. induction l as [|[k' v'] l IH]; intros acc k Hnd; simpl; [reflexivity|].
  inversion Hnd as [|? ? Hni Hnd']; subst. rewrite IH by exact Hnd'.
  destruct (String.eqb_spec k k') as [->|Hne].
  - rewrite (map_get_not_in k' l Hni), PlannerExtras.map_get_insert_same. reflexivity.
  - rewrite PlannerExtras.map_get_insert_other by exact Hne. reflexivity.
Qed.

Lemma forall2_in_r :
  forall {A B} (P : A -> B -> Prop) l1 l2 y,
    Forall2 P l1 l2 -> In y l2 -> exists x, In x l1 /\ P x y.
Proof.
  intros A B P l1 l2 y H. induction H as [|x y' l1 l2 Hxy _ IH]; intros Hin; [destruct Hin|].
  destruct Hin as [<-|Hin]; [exists x; split; [left|]; auto|].
  destruct (IH Hin) as (x' & Hx' & Hp). exists x'. split; [right|]; auto.
Qed.

Section Readback.

Variable value_to_string : Value -> string.

Lemma row_entries_keys :
  forall b j fs c acc e,
    row_entries value_to_string b j fs c acc = Ok e ->
    forall k, contains_key k e
              = existsb (String.eqb k) (map field_name fs) || contains_key k acc.
Proof.
  intros b j fs. induction fs as [|f fs IH]; intros c acc e H k; cbn [row_entries] in H.
  - inversion H; subst. reflexivity.
  - destruct (nth_error (columns b) c) as [a|]; [|discriminate].
    destruct (field_value value_to_string f a j) as [v|err]; cbv [bind] in H; [|discriminate].
    rewrite (IH _ _ _ H k), contains_key_insert. cbn [map existsb].
    destruct (String.eqb k (field_name f)), (existsb (String.eqb k) (map field_name fs)),
      (contains_key k acc); reflexivity.
Qed.

Lemma batch_rows_spec :
  forall b idxs out,
    batch_rows value_to_string b idxs = Ok out ->
    Forall2 (fun j o => exists e, row_entries value_to_string b j (schema b) 0 [] = Ok e
                                  /\ o = Obj e) idxs out.
Proof.
  intros b idxs. induction idxs as [|j idxs IH]; intros out H; cbn [batch_rows] in H.
  - inversion H; subst. constructor.
  - destruct (row_entries value_to_string b j (schema b) 0 []) as [e|err] eqn:He;
      cbv [bind] in H; [|discriminate].
    destruct (batch_rows value_to_string b idxs) as [rest|err] eqn:Hr; [|discriminate].
    inversion H; subst. constructor; eauto.
Qed.

(** [record_batches_to_json] gives one JSON object per row of each batch,
    batch after batch: on success the number of objects is the sum of the
    batches' row counts, and each object's keys are exactly the field names
    of the schema of the batch it comes from. *)
Theorem record_batches_to_json_rows :
  forall bs out,
    record_batches_to_json value_to_string bs = Ok out ->
    length out = list_sum (map num_rows bs)
    /\ forall o, In o out ->
         exists b e, In b bs /\ o = Obj e
                     /\ forall k, contains_key k e
                                  = existsb (String.eqb k) (map field_name (schema b)).
Proof.
  induction bs as [|b bs IH]; intros out H; cbn [record_batches_to_json] in H.
  - inversion H; subst. split; [reflexivity|intros o []].
  - destruct (batch_rows value_to_string b (seq 0 (num_rows b))) as [rs|err] eqn:Hb;
      cbv [bind] in H; [|discriminate].
    destruct (record_batches_to_json value_to_string bs) as [rest|err] eqn:Hr; [|discriminate].
    inversion H; subst. apply batch_rows_spec in Hb. destruct (IH rest eq_refl) as [Hl Ho].
    split.
    + rewrite length_app, Hl, <- (Forall2_length Hb), length_seq. reflexivity.
    + intros o Hin. apply in_app_or in Hin as [Hin|Hin].
      * destruct (forall2_in_r _ _ _ _ Hb Hin) as (j & _ & e & He & ->).
        exists b, e. split; [left; reflexivity|split; [reflexivity|]].
        intros k. rewrite (row_entries_keys _ _ _ _ _ _ He k). apply orb_false_r.
      * destruct (Ho o Hin) as (b' & e & Hb' & Hoe & Hk).
        exists b', e. split; [right; exact Hb'|auto].
Qed.

Lemma field_value_array_of :
  forall rows kv j row,
    nth_error rows j = Some row ->
    field_value value_to_string (field_of kv) (array_of rows kv) j
    = Ok (json_cell (infer_type (snd kv)) (get (fst kv) row)).
Proof.
  intros rows kv j row H. unfold field_value, field_of, array_of. cbn [data_type].
  destruct (infer_type (snd kv)); cbn; [| | |reflexivity];
    rewrite nth_error_map, H; cbn; destruct (opt_bind _ _); reflexivity.
Qed.

Lemma row_entries_ok :
  forall rows row j b l c acc,
    nth_error rows j = Some row ->
    (forall i kv, nth_error l i = Some kv ->
                  nth_error (columns b) (c + i) = Some (array_of rows kv)) ->
    row_entries value_to_string b j (map field_of l) c acc
    = Ok (fold_left (fun m kv => map_insert (fst kv)
                                   (json_cell (infer_type (snd kv)) (get (fst kv) row)) m)
                    l acc).
Proof.
  intros rows row j b l. induction l as [|kv l IH]; intros c acc Hj Hc;
    cbn [map row_entries fold_left]; [reflexivity|].
  pose proof (Hc 0 kv eq_refl) as H0. rewrite Nat.add_0_r in H0. rewrite H0.
  rewrite (field_value_array_of rows kv j row Hj). cbv [bind].
  apply IH; [exact Hj|]. intros i kv' Hi.
  replace (S c + i) with (c + S i) by lia. apply Hc. exact Hi.
Qed.

Lemma batch_rows_of_rows :
  forall obj rows idxs,
    (forall j, In j idxs -> j < length rows) ->
    batch_rows value_to_string
      {| schema := map field_of obj; columns := map (array_of rows) obj |} idxs
    = Ok (map (fun j => Obj (fold_left
                              (fun m kv => map_insert (fst kv)
                                 (json_cell (infer_type (snd kv))
                                    (get (fst kv) (nth j rows Null))) m) obj []))
              idxs).
Proof.
  intros obj rows idxs. induction idxs as [|j idxs IH]; intros Hlt;
    cbn [batch_rows map]; [reflexivity|].
  cbn [schema].
  rewrite (row_entries_ok rows (nth j rows Null) j _ obj 0 []).
  - cbv [bind]. rewrite IH; [reflexivity|]. intros j' Hj'. apply Hlt. right. exact Hj'.
  - apply nth_error_nth'. apply Hlt. left. reflexivity.
  - intros i kv Hi. cbn [columns Nat.add]. rewrite nth_error_map, Hi. reflexivity.
Qed.

Lemma json_to_record_batch_obj :
  forall obj rest,
    obj <> [] ->
    forallb (fun kv => negb (data_type_eqb (infer_type (snd kv)) Boolean)) obj = true ->
    json_to_record_batch (Obj obj :: rest)
    = Ok {| schema := map field_of obj; columns := map (array_of (Obj obj :: rest)) obj |}.
Proof.
  intros obj rest Hne Hnb.
  unfold json_to_record_batch. cbn [as_object]. cbv beta iota zeta.
  rewrite arrays_by_key, fields_by_key.
  unfold try_new.
  destruct obj as [|kv0 obj']; [congruence|].
  set (rows := Obj (kv0 :: obj') :: rest).
  assert (Ht : forallb (fun '(f, a) => data_type_eqb (data_type f) (array_data_type a))
                 (map (fun x => (field_of x, array_of rows x)) (kv0 :: obj')) = true).
  { apply forallb_forall. intros x Hx.
    apply in_map_iff in Hx as [kv [Hx Hin]]. subst x.
    apply (proj1 (forallb_forall _ _) Hnb) in Hin.
    apply negb_true_iff in Hin. unfold field_of, array_of. simpl.
    apply build_array_type. exact Hin. }
  assert (Hl : forallb (fun a => Nat.eqb (array_len a) (array_len (array_of rows kv0)))
                 (map (array_of rows) (kv0 :: obj')) = true).
  { apply forallb_forall. intros a Hin.
    apply in_map_iff in Hin as [kv [Ha _]]. subst a.
    unfold array_of. rewrite !build_array_len. apply Nat.eqb_refl. }
  cbn [map combine length] in Ht, Hl |- *. cbv beta iota.
  rewrite !length_map, Nat.eqb_refl. cbn [negb].
  rewrite combine_map_same, Ht, Hl. reflexivity.
Qed.

(** Round trip of the executor's row conversion: when the first row is an
    object with distinct keys, at least one key and no boolean value,
    [json_to_record_batch] followed by [record_batch_to_json] succeeds and
    gives back one object per input row; the object of row [j] has exactly
    the first row's keys, and under each key the row's value read with the
    column's type: an i64 or float number back as a number ([Null] for a
    non-finite float), a string back as a string, anything else (a missing
    key, [Null], a value of another shape) as [Null]. *)
Theorem json_rows_round_trip :
  forall obj rest,
    obj <> [] ->
    NoDup (map fst obj) ->
    forallb (fun kv => negb (data_type_eqb (infer_type (snd kv)) Boolean)) obj = true ->
    exists b out,
      json_to_record_batch (Obj obj :: rest) = Ok b
      /\ record_batch_to_json value_to_string b = Ok out
      /\ length out = length (Obj obj :: rest)
      /\ forall j row o,
           nth_error (Obj obj :: rest) j = Some row -> nth_error out j = Some o ->
           exists e, o = Obj e
                     /\ forall k, map_get k e
                                  = option_map (fun v => json_cell (infer_type v) (get k row))
                                               (map_get k obj).
Proof.
  intros obj rest Hne Hnd Hnb.
  set (rows := Obj obj :: rest).
  set (F := fun j => Obj (fold_left
                            (fun m kv => map_insert (fst kv)
                               (json_cell (infer_type (snd kv))
                                  (get (fst kv) (nth j rows Null))) m) obj [])).
  assert (Hn : num_rows {| schema := map field_of obj; columns := map (array_of rows) obj |}
               = length rows).
  { destruct obj as [|kv0 obj']; [congruence|]. unfold num_rows. cbn [columns map].
    unfold array_of. apply build_array_len. }
  exists {| schema := map field_of obj; columns := map (array_of rows) obj |},
         (map F (seq 0 (length rows))).
  split; [apply json_to_record_batch_obj; assumption|].
  split.
  - unfold record_batch_to_json. cbn [record_batches_to_json]. rewrite Hn.
    rewrite batch_rows_of_rows.
    + cbv [bind]. rewrite app_nil_r. reflexivity.
    + intros j Hj. apply in_seq in Hj. lia.
  - split; [rewrite length_map, length_seq; reflexivity|].
    intros j row o Hrow Ho.
    rewrite nth_error_map, nth_error_seq in Ho.
    destruct (Nat.ltb j (length rows)) eqn:Hlt; [|discriminate].
    inversion Ho; subst o. eexists. split; [reflexivity|].
    intros k. rewrite fold_insert_lookup by exact Hnd.
    rewrite (nth_error_nth rows j Null Hrow).
    destruct (map_get k obj); reflexivity.
Qed.

End Readback.

Lemma record_batches_to_json_rows_witness :
  length [Obj [("id", Num (PosInt 1))]; Obj [("id", Null)]; Obj [("name", Str "A")]]
  = list_sum (map num_rows
       [{| schema := [{| field_name := "id"; data_type := Int64; nullable := true |}];
           columns := [Int64Array [Some 1%Z; None]] |};
        {| schema := [{| field_name := "name"; data_type := Utf8; nullable := true |}];
           columns := [StringArray [Some "A"]] |}])
  /\ forall o, In o [Obj [("id", Num (PosInt 1))]; Obj [("id", Null)]; Obj [("name", Str "A")]] ->
       exists b e,
         In b [{| schema := [{| field_name := "id"; data_type := Int64; nullable := true |}];
                  columns := [Int64Array [Some 1%Z; None]] |};
               {| schema := [{| field_name := "name"; data_type := Utf8; nullable := true |}];
                  columns := [StringArray [Some "A"]] |}]
         /\ o = Obj e
         /\ forall k, contains_key k e = existsb (String.eqb k) (map field_name (schema b)).
Proof.
  apply (record_batches_to_json_rows (fun _ => EmptyString)). reflexivity.
Defined.

Lemma json_rows_round_trip_witness :
  exists b out,
    json_to_record_batch [Obj [("id", Num (PosInt 1)); ("name", Str "A")];
                          Obj [("id", Null); ("name", Num (PosInt 2))]] = Ok b
    /\ record_batch_to_json (fun _ => EmptyString) b = Ok out
    /\ length out = 2
    /\ forall j row o,
         nth_error [Obj [("id", Num (PosInt 1)); ("name", Str "A")];
                    Obj [("id", Null); ("name", Num (PosInt 2))]] j = Some row ->
         nth_error out j = Some o ->
         exists e, o = Obj e
                   /\ forall k, map_get k e
                                = option_map (fun v => json_cell (infer_type v) (get k row))
                                             (map_get k [("id", Num (PosInt 1)); ("name", Str "A")]).
Proof.
  apply (json_rows_round_trip (fun _ => EmptyString)).
  - discriminate.
  - constructor; [simpl; intros [H|[]]; discriminate|constructor; [intros []|constructor]].
  - reflexivity.
Defined.

End ColumnarExtras.

(** ** Further properties of the dialect translators *)
Module DialectExtras.
Import Dialect.

Lemma translate_identifiers_loop_chars :
  forall s in_string in_identifier,
    String.length (translate_identifiers_loop in_string in_identifier s) = String.length s
    /\ forall i c, String.get i s = Some c ->
         exists c', String.get i (translate_identifiers_loop in_string in_identifier s) = Some c'
                    /\ (c' = c \/ (c = "034"%char /\ c' = "`"%char)).
Proof.
  induction s as [|ch s IH]; intros ins ini.
  - split; [reflexivity|]. intros i c H. destruct i; discriminate.
  - cbn [translate_identifiers_loop].
    destruct (Ascii.eqb ch "'"%char) eqn:Hs;
      [|destruct (Ascii.eqb ch "034"%char && negb ins) eqn:Hq];
      match goal with
      | |- context [translate_identifiers_loop ?a ?b s] =>
          destruct (IH a b) as [Hlen Hget]
      end;
      (split; [cbn [String.length]; rewrite Hlen; reflexivity|]);
      intros [|i] c H; cbn [String.get] in H |- *;
      try (apply Hget; exact H);
      inversion H; subst c; eexists; (split; [reflexivity|]); auto.
    right. apply andb_prop in Hq as [Hq _]. apply Ascii.eqb_eq in Hq. auto.
Qed.

(** [translate_identifiers] rewrites the SQL text in place: the result has
    the input's length, and each of its characters is the input's character
    at the same position, except that a double quote may have become a
    backtick; no other character is inserted, removed or changed. *)
Theorem translate_identifiers_in_place :
  forall sql,
    String.length (translate_identifiers sql) = String.length sql
    /\ forall i c, String.get i sql = Some c ->
         exists c', String.get i (translate_identifiers sql) = Some c'
                    /\ (c' = c \/ (c = "034"%char /\ c' = "`"%char)).
Proof. intros sql. apply translate_identifiers_loop_chars. Qed.

End DialectExtras.
